(* Shallow embedding of alt_names: the setup adapters (config_reader.rs,
   cli_reader.rs), the orchestration in lib.rs::run and, for the import
   pipeline whose modules are absent from the sources, a model of the
   design document. *)

From Stdlib Require Import String Ascii NArith List Lia.
From stdpp Require Import base gmap sets list strings.
From Stdlib Require DecimalPos DecimalN.

Open Scope N_scope.

(* ------------------------------------------------------------------ *)
(** * Rust strings *)

(** A Rust [String] is a sequence of Unicode scalar values; we keep the
    code points.  [PathBuf::from] and [to_owned] are the identity on it. *)
Abbreviation rstring := (list N).
Abbreviation PathBuf := (list N).

(** Literal conversion for the ASCII literals of the source. *)
Definition lit (s : string) : rstring :=
  map (fun a => N_of_ascii a) (list_ascii_of_string s).

(** [char::is_whitespace]: the Unicode White_Space property. *)
Definition is_whitespace (c : N) : bool :=
  ((9 <=? c) && (c <=? 13)) || (c =? 32) || (c =? 0x85) || (c =? 0xA0)
  || (c =? 0x1680) || ((0x2000 <=? c) && (c <=? 0x200A))
  || (c =? 0x2028) || (c =? 0x2029) || (c =? 0x202F) || (c =? 0x205F)
  || (c =? 0x3000).

Fixpoint trim_start (s : rstring) : rstring :=
  match s with
  | [] => []
  | c :: s' => if is_whitespace c then trim_start s' else s
  end.

Definition trim_end (s : rstring) : rstring := rev (trim_start (rev s)).

(** [str::trim]: strips leading and trailing whitespace. *)
Definition trim (s : rstring) : rstring := trim_end (trim_start s).

(** [<usize as FromStr>::from_str] on a 64-bit target: an optional
    leading [+], then at least one ASCII digit, with checked overflow. *)
Fixpoint parse_digits (acc : N) (ds : rstring) : option N :=
  match ds with
  | [] => Some acc
  | d :: ds' =>
      if (48 <=? d) && (d <=? 57) then
        let v := acc * 10 + (d - 48) in
        if v <? 2 ^ 64 then parse_digits v ds' else None
      else None
  end.

Definition parse_usize (s : rstring) : option N :=
  match s with
  | [] => None
  | [c] => if (c =? 43) || (c =? 45) then None else parse_digits 0 s
  | c :: rest => if c =? 43 then parse_digits 0 rest else parse_digits 0 s
  end.

(** Decimal rendering of a [usize] by [format!("{}")]. *)
Fixpoint uint_chars (u : Decimal.uint) : rstring :=
  match u with
  | Decimal.Nil => []
  | Decimal.D0 u' => 48 :: uint_chars u'
  | Decimal.D1 u' => 49 :: uint_chars u'
  | Decimal.D2 u' => 50 :: uint_chars u'
  | Decimal.D3 u' => 51 :: uint_chars u'
  | Decimal.D4 u' => 52 :: uint_chars u'
  | Decimal.D5 u' => 53 :: uint_chars u'
  | Decimal.D6 u' => 54 :: uint_chars u'
  | Decimal.D7 u' => 55 :: uint_chars u'
  | Decimal.D8 u' => 56 :: uint_chars u'
  | Decimal.D9 u' => 57 :: uint_chars u'
  end.

Definition show_usize (n : N) : rstring := uint_chars (N.to_uint n).

(** The value of a decimal numeral read most significant digit first, with
    the accumulator [usize::from_str] keeps. *)
Fixpoint dec_acc (acc : N) (u : Decimal.uint) : N :=
  match u with
  | Decimal.Nil => acc
  | Decimal.D0 u' => dec_acc (acc * 10 + 0) u'
  | Decimal.D1 u' => dec_acc (acc * 10 + 1) u'
  | Decimal.D2 u' => dec_acc (acc * 10 + 2) u'
  | Decimal.D3 u' => dec_acc (acc * 10 + 3) u'
  | Decimal.D4 u' => dec_acc (acc * 10 + 4) u'
  | Decimal.D5 u' => dec_acc (acc * 10 + 5) u'
  | Decimal.D6 u' => dec_acc (acc * 10 + 6) u'
  | Decimal.D7 u' => dec_acc (acc * 10 + 7) u'
  | Decimal.D8 u' => dec_acc (acc * 10 + 8) u'
  | Decimal.D9 u' => dec_acc (acc * 10 + 9) u'
  end.


(* ------------------------------------------------------------------ *)
(** * Results and errors *)

Inductive result (A E : Type) : Type :=
| Ok (a : A)
| Err (e : E).
Arguments Ok {A E} a.
Arguments Err {A E} e.

Notation "'let?' x ':=' m 'in' k" :=
  (match m with Ok x => k | Err e => Err e end)
  (at level 200, x name, m at level 100, k at level 200).

(** The phases of [run] whose code performs I/O or database work. *)
Inductive Phase :=
| SetupLog | LogStartup | GetPool
| CreateTables | ImportData | SummariseImport | ExportData.

(** [AppError] (error_defs): the variants the modelled code produces.
    [CsErr] carries the [CustomError] message. *)
Inductive AppError :=
| CsErr (msg : string)
| IoReadErrorWithPath (path : rstring)
| ClapErr
| PhaseFailed (p : Phase).

(* ------------------------------------------------------------------ *)
(** * config_reader.rs *)

Module Toml.
Record TomlFilePars := {
  data_folder_path : option rstring;
  log_folder_path : option rstring;
  output_folder_path : option rstring;
  src_file_name : option rstring }.

Record TomlDBPars := {
  db_host : option rstring;
  db_user : option rstring;
  db_password : option rstring;
  db_port : option rstring;
  db_name : option rstring }.

Record TomlConfig := {
  files : option TomlFilePars;
  database : option TomlDBPars }.
End Toml.

Record FilePars := {
  data_folder_path : PathBuf;
  log_folder_path : PathBuf;
  output_folder_path : PathBuf;
  src_file_name : PathBuf }.

Record DBPars := {
  db_host : rstring;
  db_user : rstring;
  db_password : rstring;
  db_port : N;
  db_name : rstring }.

Record Config := {
  files : FilePars;
  db_pars : DBPars }.

(** [OnceLock::set]: stores the value only when the cell is empty. *)
Definition oncelock_set {A} (cell : option A) (v : A) : option A :=
  match cell with
  | None => Some v
  | Some _ => cell
  end.

Definition report_critical_error (error_suffix sec2 : string) : AppError :=
  CsErr ("CRITICAL ERROR - Unable to " ++ error_suffix)%string.

Definition check_critical_pathbuf (src_name : option rstring)
    (sec2 error_suffix : string) : result PathBuf AppError :=
  let s := match src_name with Some s => s | None => lit "none" end in
  if bool_decide (s = lit "none") || bool_decide (trim s = []) then
    Err (CsErr ("CRITICAL ERROR - Unable to " ++ error_suffix)%string)
  else Ok s.

Definition check_pathbuf (src_name : option rstring) (folder_type : string)
    (alt_path : PathBuf) : PathBuf :=
  let s := match src_name with Some s => s | None => lit "none" end in
  if bool_decide (s = lit "none") || bool_decide (trim s = []) then alt_path
  else s.

Definition verify_file_parameters (toml_files : Toml.TomlFilePars)
    : result FilePars AppError :=
  let? data_folder_path :=
    check_critical_pathbuf (Toml.data_folder_path toml_files)
      "read data folder path from config file" "a value for data_folder_path" in
  let? src_file_name :=
    check_critical_pathbuf (Toml.src_file_name toml_files)
      "read source file from config file" "a value for src_file_name" in
  let log_folder_path :=
    check_pathbuf (Toml.log_folder_path toml_files) "log folder" data_folder_path in
  let output_folder_path :=
    check_pathbuf (Toml.output_folder_path toml_files) "outputs folder" data_folder_path in
  Ok {| data_folder_path := data_folder_path;
        log_folder_path := log_folder_path;
        output_folder_path := output_folder_path;
        src_file_name := src_file_name |}.

Definition check_critical_db_par (src_name : option rstring)
    (sec2 error_suffix : string) : result rstring AppError :=
  let s := match src_name with Some s => s | None => lit "none" end in
  if bool_decide (s = lit "none") || bool_decide (trim s = []) then
    Err (CsErr ("CRITICAL ERROR - Unable to " ++ error_suffix)%string)
  else Ok s.

Definition check_db_par (src_name : option rstring) (folder_type : string)
    (default : rstring) : rstring :=
  let s := match src_name with Some s => s | None => lit "none" end in
  if bool_decide (s = lit "none") || bool_decide (trim s = []) then default
  else s.

Definition verify_db_parameters (toml_database : Toml.TomlDBPars)
    : result DBPars AppError :=
  let? db_user :=
    check_critical_db_par (Toml.db_user toml_database)
      "a value for db_user" "read user name from config file" in
  let? db_password :=
    check_critical_db_par (Toml.db_password toml_database)
      "a value for db_password" "read user password from config file" in
  let db_host := check_db_par (Toml.db_host toml_database) "DB host" (lit "localhost") in
  let db_port_as_string := check_db_par (Toml.db_port toml_database) "DB port" (lit "5432") in
  let db_port := match parse_usize db_port_as_string with
                 | Some n => n
                 | None => 5432
                 end in
  let db_name := check_db_par (Toml.db_name toml_database) "DB name" (lit "geo") in
  Ok {| db_host := db_host; db_user := db_user; db_password := db_password;
        db_port := db_port; db_name := db_name |}.

(** [populate_config_vars].  [toml_from_str] is [toml::from_str::<TomlConfig>]
    ([None] for a parse or deserialisation error); [db_pars_cell] is the
    process-wide [DB_PARS] cell, returned updated. *)
Definition populate_config_vars
    (toml_from_str : rstring -> option Toml.TomlConfig)
    (db_pars_cell : option DBPars) (config_string : rstring)
    : result Config AppError * option DBPars :=
  match toml_from_str config_string with
  | None =>
      (Err (report_critical_error "open config file"
              "the correct name, form and is in the correct location"), db_pars_cell)
  | Some toml_config =>
      match Toml.database toml_config with
      | None =>
          (Err (report_critical_error "read DB parameters from config file"
                  "a set of values under table 'database'"), db_pars_cell)
      | Some toml_database =>
          match Toml.files toml_config with
          | None =>
              (Err (report_critical_error "read file parameters from config file"
                      "a set of values under table 'files'"), db_pars_cell)
          | Some toml_files =>
              match verify_file_parameters toml_files with
              | Err e => (Err e, db_pars_cell)
              | Ok config_files =>
                  match verify_db_parameters toml_database with
                  | Err e => (Err e, db_pars_cell)
                  | Ok config_db_pars =>
                      (Ok {| files := config_files; db_pars := config_db_pars |},
                       oncelock_set db_pars_cell config_db_pars)
                  end
              end
          end
      end
  end.

Definition fetch_db_name (db_pars_cell : option DBPars) : result rstring AppError :=
  match db_pars_cell with
  | None => Err (CsErr "Unable to obtain DB name when retrieving database name")
  | Some dbp => Ok (db_name dbp)
  end.

(** [format!("postgres://{}:{}@{}:{}/{}", user, password, host, port, db_name)]. *)
Definition fetch_db_conn_string (db_pars_cell : option DBPars) (db_name : rstring)
    : result rstring AppError :=
  match db_pars_cell with
  | None => Err (CsErr "Unable to obtain DB parameters when building connection string")
  | Some dbp =>
      Ok (lit "postgres://" ++ db_user dbp ++ lit ":" ++ db_password dbp ++ lit "@"
          ++ db_host dbp ++ lit ":" ++ show_usize (db_port dbp) ++ lit "/" ++ db_name)
  end.

(* ------------------------------------------------------------------ *)
(** * cli_reader.rs *)

(** The values [fetch_valid_arguments] reads from clap's [ArgMatches]. *)
Record ArgMatches := {
  src_file : rstring;
  i_flag : bool;
  r_flag : bool;
  x_flag : bool;
  z_flag : bool }.

(** [Flags] (setup module): its struct literals in cli_reader.rs name
    exactly these four fields. *)
Record Flags := {
  import_data : bool;
  export_data : bool;
  initialise : bool;
  test_run : bool }.

Record CliPars := {
  source_file : PathBuf;
  flags : Flags }.

Section Cli.
(** [parse_args]: clap's [try_get_matches_from] over the declared options. *)
Variable parse_args : list rstring -> option ArgMatches.

Definition fetch_valid_arguments (args : list rstring) : result CliPars AppError :=
  match parse_args args with
  | None => Err ClapErr
  | Some parse_result =>
      let source_file := src_file parse_result in
      let i_flag := i_flag parse_result in
      let r_flag := r_flag parse_result in
      let x_flag := x_flag parse_result in
      let z_flag := z_flag parse_result in
      if i_flag then
        Ok {| source_file := [];
              flags := {| import_data := false; export_data := false;
                          initialise := i_flag; test_run := false |} |}
      else
        let x_flag := if r_flag && x_flag then false else x_flag in
        Ok {| source_file := source_file;
              flags := {| import_data := r_flag; export_data := x_flag;
                          initialise := false; test_run := z_flag |} |}
  end.
End Cli.

(** clap's parser for the options declared in [parse_args]: [-s]/[--source]
    (visible alias [--source file]) taking a value with default [""], and the
    [SetTrue] flags [-r]/[--import], [-x]/[--filesout], [-i]/[--install],
    [-z]/[--test].  The first element is the binary name.  This covers the
    space-separated spellings; any other token is an error. *)
Fixpoint clap_tokens (ts : list rstring) (m : ArgMatches) : option ArgMatches :=
  match ts with
  | [] => Some m
  | t :: ts' =>
      if bool_decide (t = lit "-s") || bool_decide (t = lit "--source")
         || bool_decide (t = lit "--source file") then
        match ts' with
        | v :: ts'' => clap_tokens ts'' {| src_file := v; i_flag := i_flag m;
                         r_flag := r_flag m; x_flag := x_flag m; z_flag := z_flag m |}
        | [] => None
        end
      else if bool_decide (t = lit "-r") || bool_decide (t = lit "--import") then
        clap_tokens ts' {| src_file := src_file m; i_flag := i_flag m;
                           r_flag := true; x_flag := x_flag m; z_flag := z_flag m |}
      else if bool_decide (t = lit "-x") || bool_decide (t = lit "--filesout") then
        clap_tokens ts' {| src_file := src_file m; i_flag := i_flag m;
                           r_flag := r_flag m; x_flag := true; z_flag := z_flag m |}
      else if bool_decide (t = lit "-i") || bool_decide (t = lit "--install") then
        clap_tokens ts' {| src_file := src_file m; i_flag := true;
                           r_flag := r_flag m; x_flag := x_flag m; z_flag := z_flag m |}
      else if bool_decide (t = lit "-z") || bool_decide (t = lit "--test") then
        clap_tokens ts' {| src_file := src_file m; i_flag := i_flag m;
                           r_flag := r_flag m; x_flag := x_flag m; z_flag := true |}
      else None
  end.

Definition clap_defaults : ArgMatches :=
  {| src_file := []; i_flag := false; r_flag := false; x_flag := false; z_flag := false |}.

Definition clap_parse_args (args : list rstring) : option ArgMatches :=
  match args with
  | [] => Some clap_defaults
  | _ :: rest => clap_tokens rest clap_defaults
  end.

(* ------------------------------------------------------------------ *)
(** * lib.rs: run *)

Module Setup.
(** [Params] as [run] uses it ([setup::get_params] lives in the setup
    module, whose code is not among the sources; it is a parameter). *)
Record Params := {
  data_folder : PathBuf;
  log_folder : PathBuf;
  output_folder : PathBuf;
  source_file_name : PathBuf;
  flags : Flags }.
End Setup.

(** Process state seen by [run]: the phases entered so far (the effects on
    the file system and the database) and the [LOG_RUNNING] cell. *)
Record RunSt := {
  trace : list Phase;
  log_running : option bool }.

Inductive outcome (A : Type) : Type :=
| Done (r : result A AppError)
| Panicked.
Arguments Done {A} r.
Arguments Panicked {A}.

Definition RunM (A : Type) : Type := RunSt -> RunSt * outcome A.

Definition ret {A} (a : A) : RunM A := fun st => (st, Done (Ok a)).

Definition fail {A} (e : AppError) : RunM A := fun st => (st, Done (Err e)).

(** [m?]: an error or a panic ends the run. *)
Definition bind {A B} (m : RunM A) (k : A -> RunM B) : RunM B :=
  fun st =>
    match m st with
    | (st', Done (Ok a)) => k a st'
    | (st', Done (Err e)) => (st', Done (Err e))
    | (st', Panicked) => (st', Panicked)
    end.

Notation "'let*' x ':=' m 'in' k" := (bind m (fun x => k))
  (at level 200, x name, m at level 100, k at level 200).

Definition enter (ph : Phase) (st : RunSt) : RunSt :=
  {| trace := trace st ++ [ph]; log_running := log_running st |}.

Section Run.
(** [fs::read_to_string], [setup::get_params], and whether each fallible
    phase ([setup_log], [get_db_pool], [create_geo_tables], [import_data],
    [summarise_import], [export_data]) returns [Ok]. *)
Variable read_to_string : PathBuf -> option rstring.
Variable get_params : list rstring -> rstring -> result Setup.Params AppError.
Variable succeeds : Phase -> bool.

(** A call [f(..).await?] of a fallible phase. *)
Definition act (ph : Phase) : RunM unit :=
  fun st => (enter ph st, Done (if succeeds ph then Ok tt else Err (PhaseFailed ph))).

(** An infallible call ([log_startup_params]). *)
Definition emit (ph : Phase) : RunM unit :=
  fun st => (enter ph st, Done (Ok tt)).

(** [LOG_RUNNING.set(true).unwrap()]. *)
Definition set_log_running : RunM unit :=
  fun st =>
    match log_running st with
    | None => ({| trace := trace st; log_running := Some true |}, Done (Ok tt))
    | Some _ => (st, Panicked)
    end.

Definition run (args : list rstring) : RunM unit :=
  let config_file := lit "./app_config.toml" in
  match read_to_string config_file with
  | None => fail (IoReadErrorWithPath config_file)
  | Some config_string =>
      match get_params args config_string with
      | Err e => fail e
      | Ok params =>
          let flags := Setup.flags params in
          let test_run := test_run flags in
          let* _ := (if negb test_run then
                       let* _ := act SetupLog in
                       let* _ := set_log_running in
                       emit LogStartup
                     else ret tt) in
          let* _ := act GetPool in
          let* _ := (if initialise flags then act CreateTables
                     else
                       let* _ := (if import_data flags then
                                    let* _ := act ImportData in
                                    (if negb test_run then act SummariseImport
                                     else ret tt)
                                  else ret tt) in
                       (if export_data flags then act ExportData else ret tt)) in
          ret tt
      end
  end.
End Run.

Definition initial_st : RunSt := {| trace := []; log_running := None |}.

(* ------------------------------------------------------------------ *)
(** * The import pipeline *)

(** Modelled from the spec: the import, summarise and initialise modules
    (import::import_data, import::summarise_import) are not among the
    sources.  The definitions of this module follow the design document:
    a reader that classifies each raw input unit as [Accepted], [Rejected]
    or [Fatal] and drops non-Latin names when they are not retained, a
    loader that commits bounded batches with a fixed retry budget and
    upserts keyed by each table's natural key, counting the records of a
    batch that exhausts its retries as rejected, and a summariser that
    upserts one summary row per source identity. *)
Module Pipeline.

Record SourceRecord := {
  rec_id : string;
  name : string;
  lang : string;
  category : string;
  parent : option string }.

(** Modelled from the spec: the reader's tagged outcome per input unit. *)
Inductive ReadOutcome :=
| Accepted (r : SourceRecord)
| Rejected (reason : string)
| Fatal (err : string).

Record ImportSummary := {
  source_id : string;
  imported_at : nat;
  n_read : nat;
  n_accepted : nat;
  n_rejected : nat;
  n_skipped : nat }.

(** Modelled from the spec: the target tables, keyed by their natural
    uniqueness constraints. *)
Record Db := {
  names : gmap string SourceRecord;
  aliases : gmap (string * string) unit;
  summaries : gmap string ImportSummary }.

Record ReaderSt := {
  r_read : nat;
  r_rejected : nat;
  r_skipped : nat;
  buffer : list SourceRecord;
  batches : list (list SourceRecord) }.

Definition reader_init : ReaderSt :=
  {| r_read := 0; r_rejected := 0; r_skipped := 0; buffer := []; batches := [] |}.

Inductive ImportError :=
| SourceFatal (err : string).

Section ImportRun.
Variable include_non_latin : bool.
(** Dominant-script classification of a record's name. *)
Variable is_latin : SourceRecord -> bool.
Variable batch_size : nat.
Variable retries : nat.
(** Whether attempt [a] of the commit of batch [i] succeeds. *)
Variable commit_ok : nat -> nat -> bool.

(** Modelled from the spec: the reader and the batching half of the
    loader; a [Fatal] outcome stops batch production at once. *)
Fixpoint read_source (outs : list ReadOutcome) (st : ReaderSt)
    : ReaderSt * option string :=
  match outs with
  | [] =>
      (match buffer st with
       | [] => st
       | _ => {| r_read := r_read st; r_rejected := r_rejected st;
               r_skipped := r_skipped st; buffer := [];
               batches := batches st ++ [buffer st] |}
       end, None)
  | Fatal e :: _ => (st, Some e)
  | Rejected _ :: outs' =>
      read_source outs'
        {| r_read := S (r_read st); r_rejected := S (r_rejected st);
           r_skipped := r_skipped st; buffer := buffer st; batches := batches st |}
  | Accepted r :: outs' =>
      if include_non_latin || is_latin r then
        let buf := buffer st ++ [r] in
        if (batch_size <=? length buf)%nat then
          read_source outs'
            {| r_read := S (r_read st); r_rejected := r_rejected st;
               r_skipped := r_skipped st; buffer := [];
               batches := batches st ++ [buf] |}
        else
          read_source outs'
            {| r_read := S (r_read st); r_rejected := r_rejected st;
               r_skipped := r_skipped st; buffer := buf; batches := batches st |}
      else
        read_source outs'
          {| r_read := S (r_read st); r_rejected := r_rejected st;
             r_skipped := S (r_skipped st); buffer := buffer st;
             batches := batches st |}
  end.

(** Modelled from the spec: insert-or-update of one record. *)
Definition upsert_record (db : Db) (r : SourceRecord) : Db :=
  {| names := <[rec_id r := r]> (names db);
     aliases := match parent r with
                | Some p => <[(p, rec_id r) := ()]> (aliases db)
                | None => aliases db
                end;
     summaries := summaries db |}.

Definition upsert_batch (b : list SourceRecord) (db : Db) : Db :=
  fold_left upsert_record b db.

(** Modelled from the spec: one transaction per batch, retried; the
    batch is applied whole or not at all. *)
Definition commit_batch (i : nat) (b : list SourceRecord) (db : Db) : Db * bool :=
  if existsb (commit_ok i) (seq 0 (S retries)) then (upsert_batch b db, true)
  else (db, false).

Fixpoint load_batches (i : nat) (bs : list (list SourceRecord)) (db : Db)
    (accepted rejected : nat) : Db * nat * nat :=
  match bs with
  | [] => (db, accepted, rejected)
  | b :: bs' =>
      let '(db', ok) := commit_batch i b db in
      if ok then load_batches (S i) bs' db' (accepted + length b) rejected
      else load_batches (S i) bs' db' accepted (rejected + length b)
  end.

(** Modelled from the spec: [import]; the database keeps the batches
    committed before a fatal error. *)
Definition import (outs : list ReadOutcome) (db : Db)
    : Db * result (nat * nat * nat * nat) ImportError :=
  let '(rst, fatal) := read_source outs reader_init in
  let '(db1, acc, brej) := load_batches 0 (batches rst) db 0 0 in
  match fatal with
  | Some e => (db1, Err (SourceFatal e))
  | None => (db1, Ok (r_read rst, acc, (r_rejected rst + brej)%nat, r_skipped rst))
  end.

(** Modelled from the spec: the summariser's upsert by source identity. *)
Definition summarise (src : string) (ts : nat) (c : nat * nat * nat * nat)
    (db : Db) : Db :=
  let '(rd, acc, rej, sk) := c in
  {| names := names db; aliases := aliases db;
     summaries := <[src := {| source_id := src; imported_at := ts; n_read := rd;
                              n_accepted := acc; n_rejected := rej;
                              n_skipped := sk |}]> (summaries db) |}.

(** Import followed by summarisation of the run. *)
Definition import_run (outs : list ReadOutcome) (src : string) (ts : nat)
    (db : Db) : Db * result (nat * nat * nat * nat) ImportError :=
  let '(db1, r) := import outs db in
  match r with
  | Ok c => (summarise src ts c db1, Ok c)
  | Err e => (db1, Err e)
  end.
End ImportRun.

(** Row counts of the target tables. *)
Definition row_counts (db : Db) : nat * nat * nat :=
  (size (names db), size (aliases db), size (summaries db)).

(** Keys the loader writes for a batch, and for a list of batches. *)
Definition name_keys (b : list SourceRecord) : gset string :=
  list_to_set (map rec_id b).

Definition alias_keys (b : list SourceRecord) : gset (string * string) :=
  list_to_set (omap (fun r => (fun p => (p, rec_id r)) <$> parent r) b).

Fixpoint batches_name_keys (bs : list (list SourceRecord)) : gset string :=
  match bs with [] => ∅ | b :: bs' => name_keys b ∪ batches_name_keys bs' end.

Fixpoint batches_alias_keys (bs : list (list SourceRecord)) : gset (string * string) :=
  match bs with [] => ∅ | b :: bs' => alias_keys b ∪ batches_alias_keys bs' end.

Fixpoint batched_records (bs : list (list SourceRecord)) : nat :=
  match bs with [] => 0%nat | b :: bs' => (length b + batched_records bs')%nat end.

End Pipeline.

(* ------------------------------------------------------------------ *)
(** * Statements about the configuration *)

(** A parameter the code treats as not supplied: absent, the literal
    ["none"], or made of whitespace only. *)
Definition param_missing (o : option rstring) : Prop :=
  o = None \/ o = Some (lit "none")
  \/ (exists s, o = Some s /\ Forall (fun c => is_whitespace c = true) s).

(** The critical parameters of a parsed TOML, absent with their table. *)
Definition toml_file_par (sel : Toml.TomlFilePars -> option rstring)
    (tc : Toml.TomlConfig) : option rstring :=
  match Toml.files tc with Some f => sel f | None => None end.

Definition toml_db_par (sel : Toml.TomlDBPars -> option rstring)
    (tc : Toml.TomlConfig) : option rstring :=
  match Toml.database tc with Some d => sel d | None => None end.

(** The nine configuration parameters, and supplying one of them (its table
    is created when absent). *)
Inductive ConfigKey :=
| KDataFolder | KLogFolder | KOutputFolder | KSrcFile
| KHost | KUser | KPassword | KPort | KName.

Definition empty_files : Toml.TomlFilePars :=
  {| Toml.data_folder_path := None; Toml.log_folder_path := None;
     Toml.output_folder_path := None; Toml.src_file_name := None |}.

Definition empty_db : Toml.TomlDBPars :=
  {| Toml.db_host := None; Toml.db_user := None; Toml.db_password := None;
     Toml.db_port := None; Toml.db_name := None |}.

Definition set_file_par (k : ConfigKey) (v : option rstring) (f : Toml.TomlFilePars)
    : Toml.TomlFilePars :=
  let '{| Toml.data_folder_path := d; Toml.log_folder_path := l;
          Toml.output_folder_path := o; Toml.src_file_name := s |} := f in
  match k with
  | KDataFolder => {| Toml.data_folder_path := v; Toml.log_folder_path := l;
                      Toml.output_folder_path := o; Toml.src_file_name := s |}
  | KLogFolder => {| Toml.data_folder_path := d; Toml.log_folder_path := v;
                     Toml.output_folder_path := o; Toml.src_file_name := s |}
  | KOutputFolder => {| Toml.data_folder_path := d; Toml.log_folder_path := l;
                        Toml.output_folder_path := v; Toml.src_file_name := s |}
  | KSrcFile => {| Toml.data_folder_path := d; Toml.log_folder_path := l;
                   Toml.output_folder_path := o; Toml.src_file_name := v |}
  | _ => f
  end.

Definition set_db_par (k : ConfigKey) (v : option rstring) (d : Toml.TomlDBPars)
    : Toml.TomlDBPars :=
  let '{| Toml.db_host := h; Toml.db_user := u; Toml.db_password := p;
          Toml.db_port := n; Toml.db_name := m |} := d in
  match k with
  | KHost => {| Toml.db_host := v; Toml.db_user := u; Toml.db_password := p;
                Toml.db_port := n; Toml.db_name := m |}
  | KUser => {| Toml.db_host := h; Toml.db_user := v; Toml.db_password := p;
                Toml.db_port := n; Toml.db_name := m |}
  | KPassword => {| Toml.db_host := h; Toml.db_user := u; Toml.db_password := v;
                    Toml.db_port := n; Toml.db_name := m |}
  | KPort => {| Toml.db_host := h; Toml.db_user := u; Toml.db_password := p;
                Toml.db_port := v; Toml.db_name := m |}
  | KName => {| Toml.db_host := h; Toml.db_user := u; Toml.db_password := p;
                Toml.db_port := n; Toml.db_name := v |}
  | _ => d
  end.

Definition is_file_key (k : ConfigKey) : bool :=
  match k with KDataFolder | KLogFolder | KOutputFolder | KSrcFile => true | _ => false end.

Definition set_param (k : ConfigKey) (v : option rstring) (tc : Toml.TomlConfig)
    : Toml.TomlConfig :=
  if is_file_key k then
    {| Toml.files := Some (set_file_par k v (default empty_files (Toml.files tc)));
       Toml.database := Toml.database tc |}
  else
    {| Toml.files := Toml.files tc;
       Toml.database := Some (set_db_par k v (default empty_db (Toml.database tc))) |}.

(** Phases recorded by [run] and their outcome: a phase entered either
    succeeded or is the infallible [log_startup_params]. *)
Definition phase_ok (succeeds : Phase -> bool) (ph : Phase) : Prop :=
  ph = LogStartup \/ succeeds ph = true.

(** After a computation of [run]'s monad, every phase entered succeeded,
    except possibly the last one, when that one's failure is the error
    returned. *)
Definition run_inv {A} (succeeds : Phase -> bool) (tr : list Phase) (o : outcome A) : Prop :=
  match o with
  | Done (Err e) =>
      Forall (phase_ok succeeds) tr \/
      exists tr0 ph, tr = tr0 ++ [ph] /\ Forall (phase_ok succeeds) tr0 /\
        succeeds ph = false /\ ph <> LogStartup /\ e = PhaseFailed ph
  | _ => Forall (phase_ok succeeds) tr
  end.

Definition run_sound {A} (succeeds : Phase -> bool) (m : RunM A) : Prop :=
  forall st, Forall (phase_ok succeeds) (trace st) ->
    run_inv succeeds (trace (fst (m st))) (snd (m st)).

(* ------------------------------------------------------------------ *)
(** * Concrete inputs *)

(** A [get_params] that takes the flags from the command line, as the
    setup module does, with fixed paths. *)
Definition sample_get_params (args : list rstring) (config_string : rstring)
    : result Setup.Params AppError :=
  match fetch_valid_arguments clap_parse_args args with
  | Err e => Err e
  | Ok cp => Ok {| Setup.data_folder := lit "data"; Setup.log_folder := lit "data";
                   Setup.output_folder := lit "data";
                   Setup.source_file_name := source_file cp; Setup.flags := flags cp |}
  end.

Definition sample_read_to_string (p : PathBuf) : option rstring := Some (lit "[files]").

Definition all_succeed (ph : Phase) : bool := true.

Definition sample_db_pars : DBPars :=
  {| db_host := lit "localhost"; db_user := lit "user_name"; db_password := lit "password";
     db_port := 5433; db_name := lit "geo" |}.

Definition sample_toml_files : Toml.TomlFilePars :=
  {| Toml.data_folder_path := Some (lit "data"); Toml.log_folder_path := Some (lit "  ");
     Toml.output_folder_path := None; Toml.src_file_name := Some (lit "alternateNamesV2.txt") |}.

Definition sample_toml_db : Toml.TomlDBPars :=
  {| Toml.db_host := Some (lit "none"); Toml.db_user := Some (lit "user_name");
     Toml.db_password := Some (lit "password"); Toml.db_port := Some (lit "54x2");
     Toml.db_name := None |}.

Definition sample_toml : Toml.TomlConfig :=
  {| Toml.files := Some sample_toml_files; Toml.database := Some sample_toml_db |}.

(** A TOML reader for the witnesses: the text ["a"] is [sample_toml] with
    [db_name = "none"], any other text is [sample_toml]. *)
Definition sample_from_str (s : rstring) : option Toml.TomlConfig :=
  if bool_decide (s = lit "a") then Some (set_param KName (Some (lit "none")) sample_toml)
  else Some (set_param KName None sample_toml).

(** A configuration text whose every parameter is supplied, some of them
    with surrounding spaces. *)
Definition padded_toml : Toml.TomlConfig :=
  {| Toml.files := Some {| Toml.data_folder_path := Some (lit "data");
                           Toml.log_folder_path := Some (lit " logs");
                           Toml.output_folder_path := Some (lit "out ");
                           Toml.src_file_name := Some (lit "alternateNamesV2.txt") |};
     Toml.database := Some {| Toml.db_host := Some (lit "db.example.org");
                              Toml.db_user := Some (lit " user_name ");
                              Toml.db_password := Some (lit "password");
                              Toml.db_port := Some (lit "+5433");
                              Toml.db_name := Some (lit "geo2") |} |}.

Definition padded_from_str (s : rstring) : option Toml.TomlConfig := Some padded_toml.

(** Parameters for an initialising run ([-i]). *)
Definition init_params : Setup.Params :=
  {| Setup.data_folder := lit "data"; Setup.log_folder := lit "data";
     Setup.output_folder := lit "data"; Setup.source_file_name := [];
     Setup.flags := {| import_data := false; export_data := false;
                       initialise := true; test_run := false |} |}.

Definition sample_record (id nm lg : string) (par : option string) : Pipeline.SourceRecord :=
  {| Pipeline.rec_id := id; Pipeline.name := nm; Pipeline.lang := lg;
     Pipeline.category := "alt"; Pipeline.parent := par |}.

(** Four input units: two Latin names, a malformed unit, a Cyrillic name. *)
Definition sample_outs : list Pipeline.ReadOutcome :=
  [Pipeline.Accepted (sample_record "1" "Londres" "fr" (Some "2643743"));
   Pipeline.Accepted (sample_record "2" "London" "en" (Some "2643743"));
   Pipeline.Rejected "missing name field";
   Pipeline.Accepted (sample_record "3" "Лондон" "ru" (Some "2643743"))].

Definition sample_is_latin (r : Pipeline.SourceRecord) : bool :=
  negb (String.eqb (Pipeline.lang r) "ru").

Definition commit_always (i a : nat) : bool := true.

Definition commit_never (i a : nat) : bool := false.

Definition empty_tables : Pipeline.Db :=
  {| Pipeline.names := ∅; Pipeline.aliases := ∅; Pipeline.summaries := ∅ |}.

Lemma trim_start_nil_iff (s : rstring) :
  trim_start s = [] <-> Forall (fun c => is_whitespace c = true) s.
Proof.
  induction s as [|c s IH]; simpl.
  - split; auto.
  - destruct (is_whitespace c) eqn:E.
    + rewrite IH. split; [intros H; constructor; auto | intros H; inversion H; auto].
    + split; [discriminate | intros H; inversion H; congruence].
Qed.

Lemma trim_start_snoc_non_ws (l : rstring) (c : N) :
  is_whitespace c = false -> trim_start (l ++ [c]) <> [].
Proof.
  intros Hc. induction l as [|d l IH]; simpl.
  - rewrite Hc. discriminate.
  - destruct (is_whitespace d); [exact IH | discriminate].
Qed.

Lemma trim_nil_iff (s : rstring) :
  trim s = [] <-> Forall (fun c => is_whitespace c = true) s.
Proof.
  rewrite <- trim_start_nil_iff. unfold trim, trim_end.
  destruct (trim_start s) as [|c t] eqn:E.
  - simpl. split; auto.
  - split; [|discriminate]. intros H. exfalso.
    assert (Hc : is_whitespace c = false).
    { clear H. revert E. induction s as [|d s IH]; simpl; [discriminate|].
      destruct (is_whitespace d) eqn:Ed; [exact IH|]. intros [= -> ->]. exact Ed. }
    simpl in H. apply (trim_start_snoc_non_ws (rev t) c Hc).
    destruct (trim_start (rev t ++ [c])); [reflexivity|].
    apply (f_equal (@length N)) in H. rewrite length_rev in H. discriminate.
Qed.

(** The test shared by the four check functions. *)
Lemma none_or_blank_iff (o : option rstring) :
  (bool_decide (match o with Some s => s | None => lit "none" end = lit "none")
   || bool_decide (trim (match o with Some s => s | None => lit "none" end) = []))
  = true <-> param_missing o.
Proof.
  unfold param_missing. rewrite orb_true_iff, !bool_decide_eq_true, trim_nil_iff.
  destruct o as [s|]; split.
  - intros [->|H]; [right; left; reflexivity | right; right; eauto].
  - intros [H|[H|(s' & H & Hs)]]; [discriminate | left; congruence |].
    injection H as ->. right; exact Hs.
  - intros _. left; reflexivity.
  - intros _. left; reflexivity.
Qed.

Lemma none_or_blank_false (o : option rstring) :
  ~ param_missing o ->
  exists s, o = Some s /\
    (bool_decide (s = lit "none") || bool_decide (trim s = [])) = false.
Proof.
  intros H. destruct o as [s|].
  - exists s. split; [reflexivity|]. apply not_true_is_false.
    intros E. apply H. apply (none_or_blank_iff (Some s)). exact E.
  - exfalso. apply H. left; reflexivity.
Qed.

Lemma check_critical_pathbuf_missing o sec2 error_suffix :
  param_missing o ->
  check_critical_pathbuf o sec2 error_suffix
  = Err (CsErr ("CRITICAL ERROR - Unable to " ++ error_suffix)%string).
Proof.
  intros H. apply none_or_blank_iff in H. unfold check_critical_pathbuf. now rewrite H.
Qed.

Lemma check_critical_pathbuf_present o sec2 error_suffix :
  ~ param_missing o ->
  exists s, o = Some s /\ check_critical_pathbuf o sec2 error_suffix = Ok s.
Proof.
  intros H. destruct (none_or_blank_false o H) as (s & -> & E).
  exists s. unfold check_critical_pathbuf. now rewrite E.
Qed.

Lemma check_critical_db_par_missing o sec2 error_suffix :
  param_missing o ->
  check_critical_db_par o sec2 error_suffix
  = Err (CsErr ("CRITICAL ERROR - Unable to " ++ error_suffix)%string).
Proof.
  intros H. apply none_or_blank_iff in H. unfold check_critical_db_par. now rewrite H.
Qed.

Lemma check_critical_db_par_present o sec2 error_suffix :
  ~ param_missing o ->
  exists s, o = Some s /\ check_critical_db_par o sec2 error_suffix = Ok s.
Proof.
  intros H. destruct (none_or_blank_false o H) as (s & -> & E).
  exists s. unfold check_critical_db_par. now rewrite E.
Qed.

Lemma check_pathbuf_missing o folder_type alt :
  param_missing o -> check_pathbuf o folder_type alt = alt.
Proof.
  intros H. apply none_or_blank_iff in H. unfold check_pathbuf. now rewrite H.
Qed.

Lemma check_db_par_missing o folder_type default :
  param_missing o -> check_db_par o folder_type default = default.
Proof.
  intros H. apply none_or_blank_iff in H. unfold check_db_par. now rewrite H.
Qed.

Lemma check_db_par_present s folder_type default :
  ~ param_missing (Some s) -> check_db_par (Some s) folder_type default = s.
Proof.
  intros H. destruct (none_or_blank_false _ H) as (s' & [= <-] & E).
  unfold check_db_par. now rewrite E.
Qed.

Lemma check_critical_pathbuf_ok o sec2 error_suffix p :
  check_critical_pathbuf o sec2 error_suffix = Ok p ->
  o = Some p /\ ~ param_missing o.
Proof.
  unfold check_critical_pathbuf. intros H.
  destruct (_ || _) eqn:E; [discriminate|]. injection H as <-.
  destruct o as [s|]; [|discriminate]. split; [reflexivity|].
  intros Hm. apply none_or_blank_iff in Hm. simpl in Hm. congruence.
Qed.

Lemma check_critical_db_par_ok o sec2 error_suffix p :
  check_critical_db_par o sec2 error_suffix = Ok p ->
  o = Some p /\ ~ param_missing o.
Proof.
  unfold check_critical_db_par. intros H.
  destruct (_ || _) eqn:E; [discriminate|]. injection H as <-.
  destruct o as [s|]; [|discriminate]. split; [reflexivity|].
  intros Hm. apply none_or_blank_iff in Hm. simpl in Hm. congruence.
Qed.

Lemma check_critical_pathbuf_err o sec2 error_suffix e :
  check_critical_pathbuf o sec2 error_suffix = Err e -> exists msg, e = CsErr msg.
Proof.
  unfold check_critical_pathbuf. destruct (_ || _); intros H; inversion H; eauto.
Qed.

Lemma check_critical_db_par_err o sec2 error_suffix e :
  check_critical_db_par o sec2 error_suffix = Err e -> exists msg, e = CsErr msg.
Proof.
  unfold check_critical_db_par. destruct (_ || _); intros H; inversion H; eauto.
Qed.

Lemma verify_file_parameters_err tf e :
  verify_file_parameters tf = Err e -> exists msg, e = CsErr msg.
Proof.
  unfold verify_file_parameters.
  destruct (check_critical_pathbuf (Toml.data_folder_path tf) _ _) eqn:E1;
    [|intros [= <-]; eapply check_critical_pathbuf_err; eauto].
  destruct (check_critical_pathbuf (Toml.src_file_name tf) _ _) eqn:E2;
    [discriminate|intros [= <-]; eapply check_critical_pathbuf_err; eauto].
Qed.

Lemma verify_db_parameters_err td e :
  verify_db_parameters td = Err e -> exists msg, e = CsErr msg.
Proof.
  unfold verify_db_parameters.
  destruct (check_critical_db_par (Toml.db_user td) _ _) eqn:E1;
    [|intros [= <-]; eapply check_critical_db_par_err; eauto].
  destruct (check_critical_db_par (Toml.db_password td) _ _) eqn:E2;
    [discriminate|intros [= <-]; eapply check_critical_db_par_err; eauto].
Qed.

(** Every error [populate_config_vars] returns is a [CsErr]. *)
Lemma populate_config_vars_err_cs from_str cell cs e :
  fst (populate_config_vars from_str cell cs) = Err e -> exists msg, e = CsErr msg.
Proof.
  unfold populate_config_vars.
  destruct (from_str cs) as [tc|]; [|intros [= <-]; eexists; reflexivity].
  destruct (Toml.database tc) as [td|]; [|intros [= <-]; eexists; reflexivity].
  destruct (Toml.files tc) as [tf|]; [|intros [= <-]; eexists; reflexivity].
  destruct (verify_file_parameters tf) eqn:E1;
    [|intros [= <-]; eapply verify_file_parameters_err; eauto].
  destruct (verify_db_parameters td) eqn:E2;
    [discriminate|intros [= <-]; eapply verify_db_parameters_err; eauto].
Qed.

Lemma populate_config_vars_ok_inv from_str cell cs c :
  fst (populate_config_vars from_str cell cs) = Ok c ->
  exists tc tf td,
    from_str cs = Some tc /\ Toml.files tc = Some tf /\ Toml.database tc = Some td /\
    verify_file_parameters tf = Ok (files c) /\ verify_db_parameters td = Ok (db_pars c) /\
    snd (populate_config_vars from_str cell cs) = oncelock_set cell (db_pars c).
Proof.
  unfold populate_config_vars.
  destruct (from_str cs) as [tc|]; [|discriminate].
  destruct (Toml.database tc) as [td|] eqn:Ed; [|discriminate].
  destruct (Toml.files tc) as [tf|] eqn:Ef; [|discriminate].
  destruct (verify_file_parameters tf) eqn:E1; [|discriminate].
  destruct (verify_db_parameters td) eqn:E2; [|discriminate].
  intros [= <-]. exists tc, tf, td. simpl. auto 10.
Qed.

Lemma verify_file_parameters_ok tf fp :
  verify_file_parameters tf = Ok fp ->
  Toml.data_folder_path tf = Some (data_folder_path fp) /\
  ~ param_missing (Toml.data_folder_path tf) /\
  Toml.src_file_name tf = Some (src_file_name fp) /\
  ~ param_missing (Toml.src_file_name tf) /\
  log_folder_path fp = check_pathbuf (Toml.log_folder_path tf) "log folder" (data_folder_path fp) /\
  output_folder_path fp
    = check_pathbuf (Toml.output_folder_path tf) "outputs folder" (data_folder_path fp).
Proof.
  unfold verify_file_parameters.
  destruct (check_critical_pathbuf (Toml.data_folder_path tf) _ _) as [d|] eqn:E1; [|discriminate].
  destruct (check_critical_pathbuf (Toml.src_file_name tf) _ _) as [sf|] eqn:E2; [|discriminate].
  intros [= <-]. simpl.
  apply check_critical_pathbuf_ok in E1 as [-> H1].
  apply check_critical_pathbuf_ok in E2 as [-> H2]. auto 10.
Qed.

Lemma verify_db_parameters_ok td dp :
  verify_db_parameters td = Ok dp ->
  ~ param_missing (Toml.db_user td) /\ ~ param_missing (Toml.db_password td) /\
  db_host dp = check_db_par (Toml.db_host td) "DB host" (lit "localhost") /\
  db_port dp = match parse_usize (check_db_par (Toml.db_port td) "DB port" (lit "5432")) with
               | Some n => n | None => 5432 end /\
  db_name dp = check_db_par (Toml.db_name td) "DB name" (lit "geo").
Proof.
  unfold verify_db_parameters.
  destruct (check_critical_db_par (Toml.db_user td) _ _) as [u|] eqn:E1; [|discriminate].
  destruct (check_critical_db_par (Toml.db_password td) _ _) as [pw|] eqn:E2; [|discriminate].
  intros [= <-]. simpl.
  apply check_critical_db_par_ok in E1 as [_ H1].
  apply check_critical_db_par_ok in E2 as [_ H2]. auto 10.
Qed.

Lemma verify_file_parameters_present tf :
  ~ param_missing (Toml.data_folder_path tf) -> ~ param_missing (Toml.src_file_name tf) ->
  exists fp, verify_file_parameters tf = Ok fp.
Proof.
  intros H1 H2. unfold verify_file_parameters.
  destruct (check_critical_pathbuf_present _ "read data folder path from config file"
              "a value for data_folder_path" H1) as (d & _ & ->).
  destruct (check_critical_pathbuf_present _ "read source file from config file"
              "a value for src_file_name" H2) as (sf & _ & ->).
  eexists; reflexivity.
Qed.

Lemma verify_db_parameters_present td :
  ~ param_missing (Toml.db_user td) -> ~ param_missing (Toml.db_password td) ->
  exists dp, verify_db_parameters td = Ok dp.
Proof.
  intros H1 H2. unfold verify_db_parameters.
  destruct (check_critical_db_par_present _ "a value for db_user"
              "read user name from config file" H1) as (u & _ & ->).
  destruct (check_critical_db_par_present _ "a value for db_password"
              "read user password from config file" H2) as (pw & _ & ->).
  eexists; reflexivity.
Qed.

(** Claim C8: [populate_config_vars] returns [Err (AppError::CsErr _)] (the
    model is total: no panic path) whenever one of data_folder_path,
    src_file_name, db_user, db_password is absent, blank or whitespace-only,
    or the literal ["none"]; when both tables parse and none of the four is
    in that case, it returns [Ok]. *)
Theorem populate_config_vars_critical from_str cell cs tc :
  from_str cs = Some tc ->
  ((param_missing (toml_file_par Toml.data_folder_path tc)
    \/ param_missing (toml_file_par Toml.src_file_name tc)
    \/ param_missing (toml_db_par Toml.db_user tc)
    \/ param_missing (toml_db_par Toml.db_password tc)) ->
   exists msg, fst (populate_config_vars from_str cell cs) = Err (CsErr msg))
  /\
  (Toml.files tc <> None -> Toml.database tc <> None ->
   ~ param_missing (toml_file_par Toml.data_folder_path tc) ->
   ~ param_missing (toml_file_par Toml.src_file_name tc) ->
   ~ param_missing (toml_db_par Toml.db_user tc) ->
   ~ param_missing (toml_db_par Toml.db_password tc) ->
   exists c, fst (populate_config_vars from_str cell cs) = Ok c).
Proof.
  intros Hparse. split.
  - intros Hmiss. destruct (fst (populate_config_vars from_str cell cs)) as [c|e] eqn:E.
    + exfalso. apply populate_config_vars_ok_inv in E
        as (tc' & tf & td & Hp & Hf & Hd & Vf & Vd & _).
      rewrite Hparse in Hp. injection Hp as <-.
      apply verify_file_parameters_ok in Vf as (_ & Hd1 & _ & Hs1 & _).
      apply verify_db_parameters_ok in Vd as (Hu1 & Hp1 & _).
      unfold toml_file_par, toml_db_par in Hmiss. rewrite Hf, Hd in Hmiss.
      tauto.
    + apply populate_config_vars_err_cs in E as [msg ->]. eauto.
  - intros Hf Hd H1 H2 H3 H4. unfold toml_file_par, toml_db_par in *.
    unfold populate_config_vars. rewrite Hparse.
    destruct (Toml.files tc) as [tf|]; [|congruence].
    destruct (Toml.database tc) as [td|]; [|congruence].
    destruct (verify_file_parameters_present tf H1 H2) as [fp ->].
    destruct (verify_db_parameters_present td H3 H4) as [dp ->].
    eexists; reflexivity.
Qed.

(** Claim C9: when [populate_config_vars] succeeds, a missing, blank or
    ["none"] log_folder_path or output_folder_path becomes the supplied
    data_folder_path; db_host defaults to ["localhost"], db_name to ["geo"]
    and db_port to 5432, and a db_port string that does not parse as a
    [usize] also gives 5432. *)
Theorem populate_config_vars_defaults from_str cell cs tc c :
  from_str cs = Some tc ->
  fst (populate_config_vars from_str cell cs) = Ok c ->
  toml_file_par Toml.data_folder_path tc = Some (data_folder_path (files c)) /\
  (param_missing (toml_file_par Toml.log_folder_path tc) ->
   log_folder_path (files c) = data_folder_path (files c)) /\
  (param_missing (toml_file_par Toml.output_folder_path tc) ->
   output_folder_path (files c) = data_folder_path (files c)) /\
  (param_missing (toml_db_par Toml.db_host tc) -> db_host (db_pars c) = lit "localhost") /\
  (param_missing (toml_db_par Toml.db_name tc) -> db_name (db_pars c) = lit "geo") /\
  (param_missing (toml_db_par Toml.db_port tc) -> db_port (db_pars c) = 5432) /\
  (forall s, toml_db_par Toml.db_port tc = Some s -> parse_usize s = None ->
   db_port (db_pars c) = 5432).
Proof.
  intros Hparse Hok.
  apply populate_config_vars_ok_inv in Hok as (tc' & tf & td & Hp & Hf & Hd & Vf & Vd & _).
  rewrite Hparse in Hp. injection Hp as <-.
  unfold toml_file_par, toml_db_par. rewrite Hf, Hd.
  apply verify_file_parameters_ok in Vf as (Hdf & _ & _ & _ & Hlog & Hout).
  apply verify_db_parameters_ok in Vd as (_ & _ & Hhost & Hport & Hname).
  split; [exact Hdf|]. split; [intros H; rewrite Hlog; apply check_pathbuf_missing, H|].
  split; [intros H; rewrite Hout; apply check_pathbuf_missing, H|].
  split; [intros H; rewrite Hhost; apply check_db_par_missing, H|].
  split; [intros H; rewrite Hname; apply check_db_par_missing, H|].
  split.
  - intros H. rewrite Hport, (check_db_par_missing _ _ _ H). reflexivity.
  - intros s Hs Hparse_s. rewrite Hport, Hs.
    unfold check_db_par. destruct (_ || _); [reflexivity|].
    rewrite Hparse_s. reflexivity.
Qed.

(** Claim C10: for each of the nine parameters, giving it the value
    ["none"] makes [populate_config_vars] behave exactly as when the
    parameter is omitted: same result and same [DB_PARS] cell afterwards. *)
Theorem populate_config_vars_none_as_absent from_str cell s1 s2 k tc :
  from_str s1 = Some (set_param k (Some (lit "none")) tc) ->
  from_str s2 = Some (set_param k None tc) ->
  populate_config_vars from_str cell s1 = populate_config_vars from_str cell s2.
Proof.
  intros H1 H2. unfold populate_config_vars. rewrite H1, H2.
  destruct tc as [[[d l o s]|] [[h u p n m]|]];
    destruct k; reflexivity.
Qed.

(* ------------------------------------------------------------------ *)
(** * Statements about the command line and [run] *)

Lemma fetch_valid_arguments_flags parse_args args m :
  parse_args args = Some m ->
  fetch_valid_arguments parse_args args =
    Ok {| source_file := if i_flag m then [] else src_file m;
          flags := {| import_data := negb (i_flag m) && r_flag m;
                      export_data := negb (i_flag m) && x_flag m && negb (r_flag m);
                      initialise := i_flag m;
                      test_run := negb (i_flag m) && z_flag m |} |}.
Proof.
  intros H. unfold fetch_valid_arguments. rewrite H.
  destruct m as [sf [] [] [] []]; reflexivity.
Qed.

(** At most one of the three modes is ever selected. *)
Lemma fetch_valid_arguments_at_most_one_mode parse_args args p :
  fetch_valid_arguments parse_args args = Ok p ->
  (Nat.b2n (initialise (flags p)) + Nat.b2n (import_data (flags p))
   + Nat.b2n (export_data (flags p)) <= 1)%nat.
Proof.
  unfold fetch_valid_arguments.
  destruct (parse_args args) as [[sf [] [] [] []]|]; intros H; inversion H; simpl; lia.
Qed.

(** Claim C2 (failing input): with no option on the command line, the
    parsed flags select none of initialise, import and export. *)
Theorem fetch_valid_arguments_no_mode :
  fetch_valid_arguments clap_parse_args [lit "alt_names"] =
    Ok {| source_file := [];
          flags := {| import_data := false; export_data := false;
                      initialise := false; test_run := false |} |}.
Proof. reflexivity. Qed.

(** Claim C4 (counterexample): no argument vector, under any parser, yields
    flags with both import_data and export_data. *)
Lemma no_args_import_and_export :
  ~ exists parse_args args p,
      fetch_valid_arguments parse_args args = Ok p /\
      import_data (flags p) = true /\ export_data (flags p) = true.
Proof.
  intros (parse_args & args & p & H & Hi & He).
  unfold fetch_valid_arguments in H.
  destruct (parse_args args) as [[sf [] [] [] []]|]; inversion H; subst; simpl in *; discriminate.
Qed.

(** Claim C4 (amended): export is selected only without import; given both
    [-r] and [-x] (and no [-i]), import is selected and export cleared. *)
Theorem fetch_valid_arguments_export_alone parse_args args m :
  parse_args args = Some m ->
  exists p, fetch_valid_arguments parse_args args = Ok p /\
    (export_data (flags p) = true ->
     import_data (flags p) = false /\ initialise (flags p) = false) /\
    (i_flag m = false -> r_flag m = true ->
     import_data (flags p) = true /\ export_data (flags p) = false).
Proof.
  intros H. rewrite (fetch_valid_arguments_flags _ _ _ H). eexists. split; [reflexivity|].
  destruct m as [sf [] [] [] []]; simpl; split; intros; try split; congruence.
Qed.

(** Claim C5 (counterexample): the parsed result has no component beyond
    the source file and the four flags, so no two parses can differ in an
    include-non-Latin choice while agreeing on those. *)
Lemma cli_result_has_no_fifth_flag :
  ~ exists parse_args a1 a2 p1 p2,
      fetch_valid_arguments parse_args a1 = Ok p1 /\
      fetch_valid_arguments parse_args a2 = Ok p2 /\
      source_file p1 = source_file p2 /\
      initialise (flags p1) = initialise (flags p2) /\
      import_data (flags p1) = import_data (flags p2) /\
      export_data (flags p1) = export_data (flags p2) /\
      test_run (flags p1) = test_run (flags p2) /\
      p1 <> p2.
Proof.
  intros (parse_args & a1 & a2 & [s1 [i1 e1 n1 t1]] & [s2 [i2 e2 n2 t2]]
          & _ & _ & Hs & Hn & Hi & He & Ht & Hne).
  simpl in *. subst. apply Hne. reflexivity.
Qed.

(** Claim C5 (amended): the command-line adapter yields the source file and
    exactly four flags (initialise, import, export, test-run), all
    determined by the [-i], [-r], [-x], [-z] flags and the [-s] value. *)
Theorem fetch_valid_arguments_four_flags parse_args args m :
  parse_args args = Some m ->
  exists sf, fetch_valid_arguments parse_args args =
    Ok {| source_file := sf;
          flags := {| import_data := negb (i_flag m) && r_flag m;
                      export_data := negb (i_flag m) && x_flag m && negb (r_flag m);
                      initialise := i_flag m;
                      test_run := negb (i_flag m) && z_flag m |} |} /\
    sf = (if i_flag m then [] else src_file m).
Proof.
  intros H. eexists. split; [apply fetch_valid_arguments_flags, H | reflexivity].
Qed.

(** Claim C3 (counterexample): with [-r -z] (import in a test run) and every
    phase succeeding, [run] completes [import_data] and returns [Ok] without
    invoking [summarise_import]. *)
Lemma test_run_import_skips_summary :
  run sample_read_to_string sample_get_params all_succeed
      [lit "alt_names"; lit "-r"; lit "-z"] initial_st
  = ({| trace := [GetPool; ImportData]; log_running := None |}, Done (Ok tt)) /\
  ~ In SummariseImport [GetPool; ImportData].
Proof.
  split; [reflexivity|]. simpl. intros [H|[H|[]]]; discriminate.
Qed.

(** Claim C3 (amended): in a run that selects import (and not initialise)
    and whose [import_data] succeeds, [summarise_import] is invoked exactly
    when the run is not a test run. *)
Theorem run_summarises_iff_not_test read_to_string get_params succeeds args lr
    config_string params :
  read_to_string (lit "./app_config.toml") = Some config_string ->
  get_params args config_string = Ok params ->
  initialise (Setup.flags params) = false ->
  import_data (Setup.flags params) = true ->
  succeeds ImportData = true ->
  let st := fst (run read_to_string get_params succeeds args
                   {| trace := []; log_running := lr |}) in
  In ImportData (trace st) ->
  (In SummariseImport (trace st) <-> test_run (Setup.flags params) = false).
Proof.
  intros Hr Hg Hi Him Hs st. subst st. unfold run. rewrite Hr, Hg.
  destruct (Setup.flags params) as [im ex ini tr]; simpl in *; subst.
  unfold bind, act, emit, set_log_running, ret, enter; simpl.
  destruct tr, (succeeds SetupLog), lr, (succeeds GetPool), (succeeds SummariseImport),
    ex, (succeeds ExportData);
    rewrite ?Hs; simpl; intuition discriminate.
Qed.

(** Claim C7 (counterexample): with identical arguments, the result of
    [fetch_db_conn_string] depends on the process-wide [DB_PARS] cell, and
    a second [run] with identical arguments and environment panics on
    [LOG_RUNNING.set(true).unwrap()] where the first one succeeded. *)
Lemma core_reads_process_state :
  fetch_db_conn_string None (lit "geo")
    <> fetch_db_conn_string (Some sample_db_pars) (lit "geo") /\
  let first := run sample_read_to_string sample_get_params all_succeed
                   [lit "alt_names"; lit "-x"] initial_st in
  snd first = Done (Ok tt) /\
  snd (run sample_read_to_string sample_get_params all_succeed
           [lit "alt_names"; lit "-x"] (fst first)) = Panicked.
Proof.
  split; [discriminate|]. split; reflexivity.
Qed.

(** Claim C7 (amended): [fetch_db_conn_string] is a function of its
    argument and of the [DB_PARS] cell: it fails while the cell is empty;
    the first successful [populate_config_vars] fills the cell, after which
    the connection string is built from those parameters, and later calls
    never change a filled cell.  A [run] started while [LOG_RUNNING] is
    already set panics or never completes log setup. *)
Theorem db_pars_cell_behaviour from_str cs db_name read_to_string get_params
    succeeds args lr :
  (exists msg, fetch_db_conn_string None db_name = Err (CsErr msg)) /\
  (forall p, snd (populate_config_vars from_str (Some p) cs) = Some p) /\
  match fst (populate_config_vars from_str None cs) with
  | Ok c =>
      snd (populate_config_vars from_str None cs) = Some (db_pars c) /\
      fetch_db_conn_string (snd (populate_config_vars from_str None cs)) db_name
      = Ok (lit "postgres://" ++ db_user (db_pars c) ++ lit ":" ++ db_password (db_pars c)
            ++ lit "@" ++ db_host (db_pars c) ++ lit ":" ++ show_usize (db_port (db_pars c))
            ++ lit "/" ++ db_name)
  | Err _ => snd (populate_config_vars from_str None cs) = None
  end /\
  (let r := run read_to_string get_params succeeds args
              {| trace := []; log_running := Some lr |} in
   snd r = Panicked \/ ~ In LogStartup (trace (fst r))).
Proof.
  split; [eexists; reflexivity|]. split.
  { intros p. unfold populate_config_vars.
    destruct (from_str cs) as [tc|]; [|reflexivity].
    destruct (Toml.database tc); [|reflexivity]. destruct (Toml.files tc); [|reflexivity].
    destruct (verify_file_parameters _); [|reflexivity].
    destruct (verify_db_parameters _); reflexivity. }
  split.
  { destruct (fst (populate_config_vars from_str None cs)) as [c|e] eqn:E.
    - pose proof (populate_config_vars_ok_inv _ _ _ _ E) as (? & ? & ? & ? & ? & ? & ? & ? & Hs).
      rewrite Hs. split; reflexivity.
    - revert E. unfold populate_config_vars.
      destruct (from_str cs) as [tc|]; [|reflexivity].
      destruct (Toml.database tc); [|reflexivity]. destruct (Toml.files tc); [|reflexivity].
      destruct (verify_file_parameters _); [|reflexivity].
      destruct (verify_db_parameters _); [discriminate|reflexivity]. }
  unfold run. destruct (read_to_string _) as [cfg|]; [|right; simpl; tauto].
  destruct (get_params args cfg) as [params|e]; [|right; simpl; tauto].
  destruct (Setup.flags params) as [im ex ini tr]; simpl.
  unfold bind, act, emit, set_log_running, ret, enter; simpl.
  destruct tr; simpl.
  - right. destruct (succeeds GetPool), ini, (succeeds CreateTables), im, (succeeds ImportData),
      ex, (succeeds ExportData); simpl; intuition discriminate.
  - destruct (succeeds SetupLog); simpl; [left; reflexivity | right; intuition discriminate].
Qed.

(* ------------------------------------------------------------------ *)
(** * Statements about the import pipeline *)

Lemma batched_records_snoc bs b :
  Pipeline.batched_records (bs ++ [b]) = (Pipeline.batched_records bs + length b)%nat.
Proof. induction bs as [|b' bs IH]; simpl; [lia | rewrite IH; lia]. Qed.

(** The reader's invariant: every unit read is batched, buffered,
    rejected or skipped. *)
Definition reader_balanced (st : Pipeline.ReaderSt) : Prop :=
  Pipeline.r_read st = (Pipeline.batched_records (Pipeline.batches st)
                        + length (Pipeline.buffer st)
                        + Pipeline.r_rejected st + Pipeline.r_skipped st)%nat.

Lemma read_source_balanced include_non_latin is_latin batch_size outs st :
  reader_balanced st ->
  reader_balanced (fst (Pipeline.read_source include_non_latin is_latin batch_size outs st)).
Proof.
  unfold reader_balanced. revert st.
  induction outs as [|o outs IH]; intros st H; simpl.
  - destruct (Pipeline.buffer st) eqn:E; simpl; [rewrite E; exact H|].
    rewrite batched_records_snoc. simpl in *. lia.
  - destruct o as [r|reason|e]; simpl; [| apply IH; simpl; lia | exact H].
    destruct (include_non_latin || is_latin r);
      [destruct (batch_size <=? length (Pipeline.buffer st ++ [r]))%nat|];
      apply IH; simpl; rewrite ?batched_records_snoc, ?length_app in *; simpl in *; lia.
Qed.

Lemma read_source_done_flushed include_non_latin is_latin batch_size outs st st' :
  Pipeline.read_source include_non_latin is_latin batch_size outs st = (st', None) ->
  Pipeline.buffer st' = [].
Proof.
  revert st. induction outs as [|o outs IH]; intros st H; simpl in H.
  - destruct (Pipeline.buffer st) eqn:E; injection H as <-; [exact E | reflexivity].
  - destruct o as [r|reason|e]; [| exact (IH _ H) | discriminate].
    destruct (include_non_latin || is_latin r);
      [destruct (batch_size <=? length (Pipeline.buffer st ++ [r]))%nat|]; exact (IH _ H).
Qed.

Lemma load_batches_counts retries commit_ok i bs db a r db' a' r' :
  Pipeline.load_batches retries commit_ok i bs db a r = (db', a', r') ->
  (a' + r' = a + r + Pipeline.batched_records bs)%nat.
Proof.
  revert i db a r. induction bs as [|b bs IH]; intros i db a r H; simpl in H.
  - injection H as <- <- <-. simpl. lia.
  - destruct (Pipeline.commit_batch retries commit_ok i b db) as [db1 []];
      apply IH in H; simpl; lia.
Qed.

(** Claim C1 (spec-modelled): for every import that runs to the end, the
    summary row it writes has read = accepted + rejected + skipped. *)
Theorem import_summary_balanced include_non_latin is_latin batch_size retries commit_ok
    outs src ts db db' c :
  Pipeline.import_run include_non_latin is_latin batch_size retries commit_ok outs src ts db
    = (db', Ok c) ->
  exists row, Pipeline.summaries db' !! src = Some row /\
    Pipeline.n_read row
    = (Pipeline.n_accepted row + Pipeline.n_rejected row + Pipeline.n_skipped row)%nat.
Proof.
  unfold Pipeline.import_run, Pipeline.import.
  destruct (Pipeline.read_source include_non_latin is_latin batch_size outs Pipeline.reader_init)
    as [rst fatal] eqn:Er.
  destruct (Pipeline.load_batches retries commit_ok 0 (Pipeline.batches rst) db 0 0)
    as [[db1 acc] brej] eqn:El.
  destruct fatal as [e|]; [discriminate|]. simpl. intros [= <- <-].
  eexists. split; [apply lookup_insert_eq|]. simpl.
  pose proof (read_source_balanced include_non_latin is_latin batch_size outs
                Pipeline.reader_init ltac:(reflexivity)) as Hb.
  rewrite Er in Hb. unfold reader_balanced in Hb. simpl in Hb.
  rewrite (read_source_done_flushed _ _ _ _ _ _ Er) in Hb.
  apply load_batches_counts in El. simpl in *. lia.
Qed.

Lemma upsert_batch_tables b db :
  dom (Pipeline.names (Pipeline.upsert_batch b db))
    = dom (Pipeline.names db) ∪ Pipeline.name_keys b /\
  dom (Pipeline.aliases (Pipeline.upsert_batch b db))
    = dom (Pipeline.aliases db) ∪ Pipeline.alias_keys b /\
  Pipeline.summaries (Pipeline.upsert_batch b db) = Pipeline.summaries db.
Proof.
  revert db. induction b as [|r b IH]; intros db.
  - unfold Pipeline.name_keys, Pipeline.alias_keys. simpl.
    split; [|split]; [set_solver | set_solver | reflexivity].
  - unfold Pipeline.upsert_batch in *. simpl.
    destruct (IH (Pipeline.upsert_record db r)) as (H1 & H2 & H3).
    rewrite H1, H2, H3. unfold Pipeline.upsert_record, Pipeline.name_keys,
      Pipeline.alias_keys in *. simpl.
    rewrite dom_insert_L. split; [set_solver|]. split; [|reflexivity].
    destruct (Pipeline.parent r); simpl; [rewrite dom_insert_L|]; set_solver.
Qed.

(** Whatever the commit outcomes, loading only adds keys of the loaded
    batches, never removes one, and leaves the summary table alone. *)
Lemma load_batches_tables retries commit_ok i bs db a r :
  let db' := fst (fst (Pipeline.load_batches retries commit_ok i bs db a r)) in
  dom (Pipeline.names db) ⊆ dom (Pipeline.names db') /\
  dom (Pipeline.names db') ⊆ dom (Pipeline.names db) ∪ Pipeline.batches_name_keys bs /\
  dom (Pipeline.aliases db) ⊆ dom (Pipeline.aliases db') /\
  dom (Pipeline.aliases db') ⊆ dom (Pipeline.aliases db) ∪ Pipeline.batches_alias_keys bs /\
  Pipeline.summaries db' = Pipeline.summaries db.
Proof.
  revert i db a r. induction bs as [|b bs IH]; intros i db a r; simpl.
  - split; [set_solver|]. split; [set_solver|]. split; [set_solver|].
    split; [set_solver|reflexivity].
  - unfold Pipeline.commit_batch.
    destruct (existsb (commit_ok i) (seq 0 (S retries))).
    + destruct (IH (S i) (Pipeline.upsert_batch b db) (a + length b)%nat r)
        as (H1 & H2 & H3 & H4 & H5).
      destruct (upsert_batch_tables b db) as (U1 & U2 & U3).
      rewrite U1 in H1, H2. rewrite U2 in H3, H4. rewrite H5, U3.
      split; [set_solver|]. split; [set_solver|]. split; [set_solver|].
      split; [set_solver|reflexivity].
    + destruct (IH (S i) db a (r + length b)%nat) as (H1 & H2 & H3 & H4 & H5).
      split; [set_solver|]. split; [set_solver|]. split; [set_solver|].
      split; [set_solver|exact H5].
Qed.

(** When every batch commits, all keys of the loaded batches are present. *)
Lemma load_batches_all_commit retries commit_ok i bs db a r :
  (forall j, existsb (commit_ok j) (seq 0 (S retries)) = true) ->
  let db' := fst (fst (Pipeline.load_batches retries commit_ok i bs db a r)) in
  Pipeline.batches_name_keys bs ⊆ dom (Pipeline.names db') /\
  Pipeline.batches_alias_keys bs ⊆ dom (Pipeline.aliases db').
Proof.
  intros Hok. revert i db a r. induction bs as [|b bs IH]; intros i db a r; simpl.
  - split; set_solver.
  - unfold Pipeline.commit_batch. rewrite Hok.
    destruct (IH (S i) (Pipeline.upsert_batch b db) (a + length b)%nat r) as [K1 K2].
    destruct (load_batches_tables retries commit_ok (S i) bs (Pipeline.upsert_batch b db)
                (a + length b)%nat r) as (H1 & _ & H3 & _).
    destruct (upsert_batch_tables b db) as (U1 & U2 & _).
    rewrite U1 in H1. rewrite U2 in H3.
    split; set_solver.
Qed.

Lemma row_counts_dom db1 db2 :
  dom (Pipeline.names db1) = dom (Pipeline.names db2) ->
  dom (Pipeline.aliases db1) = dom (Pipeline.aliases db2) ->
  dom (Pipeline.summaries db1) = dom (Pipeline.summaries db2) ->
  Pipeline.row_counts db1 = Pipeline.row_counts db2.
Proof.
  intros H1 H2 H3. unfold Pipeline.row_counts.
  rewrite <- !(size_dom (Pipeline.names _)), <- !(size_dom (Pipeline.aliases _)),
    <- !(size_dom (Pipeline.summaries _)), H1, H2, H3. reflexivity.
Qed.

Lemma summarise_tables src ts c db :
  Pipeline.names (Pipeline.summarise src ts c db) = Pipeline.names db /\
  Pipeline.aliases (Pipeline.summarise src ts c db) = Pipeline.aliases db /\
  dom (Pipeline.summaries (Pipeline.summarise src ts c db))
    = {[src]} ∪ dom (Pipeline.summaries db).
Proof.
  destruct c as [[[rd acc] rej] sk]. simpl. split; [reflexivity|]. split; [reflexivity|].
  apply dom_insert_L.
Qed.

Lemma import_run_tables include_non_latin is_latin batch_size retries commit_ok
    outs src ts db db' r :
  Pipeline.import_run include_non_latin is_latin batch_size retries commit_ok
    outs src ts db = (db', r) ->
  let rd := Pipeline.read_source include_non_latin is_latin batch_size outs
              Pipeline.reader_init in
  dom (Pipeline.names db) ⊆ dom (Pipeline.names db') /\
  dom (Pipeline.names db')
    ⊆ dom (Pipeline.names db) ∪ Pipeline.batches_name_keys (Pipeline.batches (fst rd)) /\
  dom (Pipeline.aliases db) ⊆ dom (Pipeline.aliases db') /\
  dom (Pipeline.aliases db')
    ⊆ dom (Pipeline.aliases db) ∪ Pipeline.batches_alias_keys (Pipeline.batches (fst rd)) /\
  match snd rd with
  | None => (exists c, r = Ok c) /\
            dom (Pipeline.summaries db') = {[src]} ∪ dom (Pipeline.summaries db)
  | Some e => r = Err (Pipeline.SourceFatal e) /\
              Pipeline.summaries db' = Pipeline.summaries db
  end /\
  ((forall j, existsb (commit_ok j) (seq 0 (S retries)) = true) ->
   Pipeline.batches_name_keys (Pipeline.batches (fst rd)) ⊆ dom (Pipeline.names db') /\
   Pipeline.batches_alias_keys (Pipeline.batches (fst rd)) ⊆ dom (Pipeline.aliases db')).
Proof.
  unfold Pipeline.import_run, Pipeline.import. intros H.
  destruct (Pipeline.read_source include_non_latin is_latin batch_size outs Pipeline.reader_init)
    as [rst fatal]. simpl.
  pose proof (load_batches_tables retries commit_ok 0 (Pipeline.batches rst) db 0 0)
    as (H1 & H2 & H3 & H4 & H5).
  pose proof (load_batches_all_commit retries commit_ok 0 (Pipeline.batches rst) db 0 0) as Hall.
  destruct (Pipeline.load_batches retries commit_ok 0 (Pipeline.batches rst) db 0 0)
    as [[dbl acc] brej]. simpl in *.
  destruct fatal as [e|]; simpl in H; injection H as <- <-; simpl.
  - auto 10.
  - rewrite dom_insert_L, H5. split; [exact H1|]. split; [exact H2|].
    split; [exact H3|]. split; [exact H4|]. split; [split; [eauto | reflexivity] | exact Hall].
Qed.

(** Claim C6 (spec-modelled): importing the same source file a second time,
    after a first import whose batches all committed, leaves the row count
    of every target table (names, aliases, summaries) as the first import
    left it; the second import returns no error the first did not (only the
    reader's fatal errors are surfaced, never a load error). *)
Theorem reimport_keeps_row_counts include_non_latin is_latin batch_size retries
    commit_ok1 commit_ok2 outs src ts1 ts2 db0 db1 r1 db2 r2 :
  (forall j, existsb (commit_ok1 j) (seq 0 (S retries)) = true) ->
  Pipeline.import_run include_non_latin is_latin batch_size retries commit_ok1
    outs src ts1 db0 = (db1, r1) ->
  Pipeline.import_run include_non_latin is_latin batch_size retries commit_ok2
    outs src ts2 db1 = (db2, r2) ->
  Pipeline.row_counts db2 = Pipeline.row_counts db1 /\
  (forall e, r2 = Err e -> r1 = Err e) /\
  ((exists c, r1 = Ok c) -> exists c, r2 = Ok c).
Proof.
  intros Hok E1 E2.
  apply import_run_tables in E1 as (A1 & A2 & A3 & A4 & A5 & A6).
  apply import_run_tables in E2 as (B1 & B2 & B3 & B4 & B5 & _).
  destruct (A6 Hok) as [K1 K2].
  destruct (Pipeline.read_source include_non_latin is_latin batch_size outs
              Pipeline.reader_init) as [rst fatal]. simpl in *.
  split; [apply row_counts_dom; [set_solver | set_solver |]|].
  - destruct fatal as [e|].
    + destruct B5 as [_ ->]. reflexivity.
    + destruct B5 as [_ ->]. destruct A5 as [_ ->]. set_solver.
  - destruct fatal as [e|].
    + destruct A5 as [-> _], B5 as [-> _]. split; [auto|]. intros [c Hc]; discriminate.
    + destruct A5 as [[c1 ->] _], B5 as [[c2 ->] _]. split; [discriminate | eauto].
Qed.

(** Claim C6 (counterexample, spec-modelled): when every batch of the first
    import exhausts its retries, a second import of the same file commits
    them and the row counts change. *)
Lemma reimport_after_failed_batches_adds_rows :
  let '(db1, _) := Pipeline.import_run false sample_is_latin 1 2 commit_never sample_outs
                     "alternateNamesV2.txt" 0 empty_tables in
  let '(db2, _) := Pipeline.import_run false sample_is_latin 1 2 commit_always sample_outs
                     "alternateNamesV2.txt" 1 db1 in
  Pipeline.row_counts db1 = (0, 0, 1)%nat /\ Pipeline.row_counts db2 = (2, 2, 1)%nat.
Proof. vm_compute. split; reflexivity. Qed.

Example sample_import_counts :
  snd (Pipeline.import false sample_is_latin 1 2 commit_always sample_outs empty_tables)
  = Ok (4, 2, 1, 1)%nat.
Proof. vm_compute. reflexivity. Qed.

Example sample_import_counts_with_non_latin :
  snd (Pipeline.import true sample_is_latin 2 2 commit_always sample_outs empty_tables)
  = Ok (4, 3, 1, 0)%nat.
Proof. vm_compute. reflexivity. Qed.

Example port_parse_examples :
  parse_usize (lit "5433") = Some 5433 /\ parse_usize (lit "+7") = Some 7 /\
  parse_usize (lit "54x2") = None /\ parse_usize (lit "-1") = None /\
  parse_usize (lit "18446744073709551616") = None.
Proof. vm_compute. auto. Qed.

Example cli_examples :
  fetch_valid_arguments clap_parse_args [lit "alt_names"; lit "-i"; lit "-r"]
  = Ok {| source_file := []; flags := {| import_data := false; export_data := false;
                                         initialise := true; test_run := false |} |} /\
  fetch_valid_arguments clap_parse_args [lit "alt_names"; lit "-a"] = Err ClapErr.
Proof. split; reflexivity. Qed.

(* ------------------------------------------------------------------ *)
(** * Witnesses *)

Ltac not_missing :=
  let Hm := fresh in
  intros Hm; apply none_or_blank_iff in Hm; vm_compute in Hm; discriminate.

Lemma populate_config_vars_critical_witness :
  exists c, fst (populate_config_vars sample_from_str None (lit "b")) = Ok c.
Proof.
  refine (proj2 (populate_config_vars_critical sample_from_str None (lit "b")
                   (set_param KName None sample_toml) ltac:(reflexivity)) _ _ _ _ _ _);
    [discriminate | discriminate | not_missing | not_missing | not_missing | not_missing].
Defined.

Lemma populate_config_vars_defaults_witness :
  match fst (populate_config_vars sample_from_str None (lit "b")) with
  | Ok c => db_port (db_pars c) = 5432 /\ db_host (db_pars c) = lit "localhost" /\
            log_folder_path (files c) = lit "data"
  | Err _ => False
  end.
Proof.
  destruct (fst (populate_config_vars sample_from_str None (lit "b"))) as [c|e] eqn:E.
  - destruct (populate_config_vars_defaults sample_from_str None (lit "b")
                (set_param KName None sample_toml) c ltac:(reflexivity) E) as (Hd & Hlog & _ & Hhost & _ & _ & Hport).
    split; [apply (Hport (lit "54x2")); reflexivity|].
    split; [apply Hhost; right; left; reflexivity|].
    rewrite Hlog; [|right; right; exists (lit "  "); split; [reflexivity|]; repeat constructor].
    unfold toml_file_par in Hd. simpl in Hd. injection Hd as <-. reflexivity.
  - vm_compute in E. discriminate.
Defined.

Lemma populate_config_vars_none_as_absent_witness :
  populate_config_vars sample_from_str None (lit "a")
  = populate_config_vars sample_from_str None (lit "b").
Proof.
  apply (populate_config_vars_none_as_absent sample_from_str None (lit "a") (lit "b")
           KName sample_toml); reflexivity.
Defined.

Lemma fetch_valid_arguments_export_alone_witness :
  exists p, fetch_valid_arguments clap_parse_args [lit "alt_names"; lit "-r"; lit "-x"] = Ok p /\
    (export_data (flags p) = true ->
     import_data (flags p) = false /\ initialise (flags p) = false) /\
    (false = false -> true = true ->
     import_data (flags p) = true /\ export_data (flags p) = false).
Proof.
  exact (fetch_valid_arguments_export_alone clap_parse_args
           [lit "alt_names"; lit "-r"; lit "-x"]
           {| src_file := []; i_flag := false; r_flag := true; x_flag := true;
              z_flag := false |} ltac:(reflexivity)).
Defined.

Lemma fetch_valid_arguments_four_flags_witness :
  exists sf, fetch_valid_arguments clap_parse_args
               [lit "alt_names"; lit "-s"; lit "alternateNamesV2.txt"; lit "-x"; lit "-z"] =
    Ok {| source_file := sf;
          flags := {| import_data := false; export_data := true;
                      initialise := false; test_run := true |} |} /\
    sf = lit "alternateNamesV2.txt".
Proof.
  exact (fetch_valid_arguments_four_flags clap_parse_args
           [lit "alt_names"; lit "-s"; lit "alternateNamesV2.txt"; lit "-x"; lit "-z"]
           {| src_file := lit "alternateNamesV2.txt"; i_flag := false; r_flag := false;
              x_flag := true; z_flag := true |} ltac:(reflexivity)).
Defined.

Lemma run_summarises_iff_not_test_witness :
  let st := fst (run sample_read_to_string sample_get_params all_succeed
                   [lit "alt_names"; lit "-r"] {| trace := []; log_running := None |}) in
  In SummariseImport (trace st) <-> false = false.
Proof.
  exact (run_summarises_iff_not_test sample_read_to_string sample_get_params all_succeed
           [lit "alt_names"; lit "-r"] None (lit "[files]")
           {| Setup.data_folder := lit "data"; Setup.log_folder := lit "data";
              Setup.output_folder := lit "data"; Setup.source_file_name := [];
              Setup.flags := {| import_data := true; export_data := false;
                                initialise := false; test_run := false |} |}
           ltac:(reflexivity) ltac:(reflexivity) ltac:(reflexivity) ltac:(reflexivity)
           ltac:(reflexivity) ltac:(vm_compute; tauto)).
Defined.

Lemma import_summary_balanced_witness :
  match Pipeline.import_run false sample_is_latin 1 2 commit_always sample_outs
          "alternateNamesV2.txt" 0 empty_tables with
  | (db', Ok c) =>
      exists row, Pipeline.summaries db' !! "alternateNamesV2.txt" = Some row /\
        Pipeline.n_read row
        = (Pipeline.n_accepted row + Pipeline.n_rejected row + Pipeline.n_skipped row)%nat
  | (_, Err _) => False
  end.
Proof.
  destruct (Pipeline.import_run false sample_is_latin 1 2 commit_always sample_outs
              "alternateNamesV2.txt" 0 empty_tables) as [db' [c|e]] eqn:E.
  - exact (import_summary_balanced false sample_is_latin 1 2 commit_always sample_outs
             "alternateNamesV2.txt" 0 empty_tables db' c E).
  - vm_compute in E. discriminate.
Defined.

Lemma reimport_keeps_row_counts_witness :
  match Pipeline.import_run false sample_is_latin 1 2 commit_always sample_outs
          "alternateNamesV2.txt" 0 empty_tables with
  | (db1, r1) =>
      match Pipeline.import_run false sample_is_latin 1 2 commit_never sample_outs
              "alternateNamesV2.txt" 1 db1 with
      | (db2, r2) =>
          Pipeline.row_counts db2 = Pipeline.row_counts db1 /\
          (forall e, r2 = Err e -> r1 = Err e) /\
          ((exists c, r1 = Ok c) -> exists c, r2 = Ok c)
      end
  end.
Proof.
  destruct (Pipeline.import_run false sample_is_latin 1 2 commit_always sample_outs
              "alternateNamesV2.txt" 0 empty_tables) as [db1 r1] eqn:E1.
  destruct (Pipeline.import_run false sample_is_latin 1 2 commit_never sample_outs
              "alternateNamesV2.txt" 1 db1) as [db2 r2] eqn:E2.
  exact (reimport_keeps_row_counts false sample_is_latin 1 2 commit_always commit_never
           sample_outs "alternateNamesV2.txt" 0 1 empty_tables db1 r1 db2 r2
           ltac:(intros; reflexivity) E1 E2).
Defined.

(* ------------------------------------------------------------------ *)
(** * Further properties of the setup code and of [run] *)

Lemma run_sound_ret {A} succeeds (a : A) : run_sound succeeds (ret a).
Proof. intros st H. exact H. Qed.

Lemma run_sound_fail {A} succeeds e : run_sound (A:=A) succeeds (fail e).
Proof. intros st H. left. exact H. Qed.

Lemma run_sound_act succeeds ph :
  ph <> LogStartup -> run_sound succeeds (act succeeds ph).
Proof.
  intros Hph st H. unfold act, enter. simpl.
  destruct (succeeds ph) eqn:E; simpl.
  - apply Forall_app. split; [exact H|]. constructor; [right; exact E | constructor].
  - right. exists (trace st), ph. auto.
Qed.

Lemma run_sound_emit succeeds : run_sound succeeds (emit LogStartup).
Proof.
  intros st H. unfold emit, enter. simpl.
  apply Forall_app. split; [exact H|]. constructor; [left; reflexivity | constructor].
Qed.

Lemma run_sound_set_log_running succeeds : run_sound succeeds set_log_running.
Proof. intros st H. unfold set_log_running. destruct (log_running st); exact H. Qed.

Lemma run_sound_bind {A B} succeeds (m : RunM A) (k : A -> RunM B) :
  run_sound succeeds m -> (forall a, run_sound succeeds (k a)) ->
  run_sound succeeds (bind m k).
Proof.
  intros Hm Hk st H. unfold bind. specialize (Hm st H).
  destruct (m st) as [st1 [[a|e]|]]; simpl in *; [apply Hk, Hm | exact Hm | exact Hm].
Qed.

Lemma run_sound_run read_to_string get_params succeeds args :
  run_sound succeeds (run read_to_string get_params succeeds args).
Proof.
  unfold run. destruct (read_to_string _) as [cs|]; [|apply run_sound_fail].
  destruct (get_params args cs) as [params|e]; [|apply run_sound_fail].
  assert (Hact : forall ph, ph <> LogStartup -> run_sound succeeds (act succeeds ph))
    by (intros; apply run_sound_act; assumption).
  apply run_sound_bind; [|intros _].
  { destruct (negb _); [|apply run_sound_ret].
    apply run_sound_bind; [apply Hact; discriminate|intros _].
    apply run_sound_bind; [apply run_sound_set_log_running|intros _].
    apply run_sound_emit. }
  apply run_sound_bind; [apply Hact; discriminate|intros _].
  apply run_sound_bind; [|intros _; apply run_sound_ret].
  destruct (initialise _); [apply Hact; discriminate|].
  apply run_sound_bind; [|intros _].
  - destruct (import_data _); [|apply run_sound_ret].
    apply run_sound_bind; [apply Hact; discriminate|intros _].
    destruct (negb _); [apply Hact; discriminate|apply run_sound_ret].
  - destruct (export_data _); [apply Hact; discriminate|apply run_sound_ret].
Qed.

(** [run] stops at the first phase that fails: a failing phase is always the
    last one entered and its error is what [run] returns; a run that returns
    [Ok] entered only phases that succeeded. *)
Theorem run_stops_at_first_failure read_to_string get_params succeeds args lr :
  let r := run read_to_string get_params succeeds args
             {| trace := []; log_running := lr |} in
  (forall ph, In ph (trace (fst r)) -> ph <> LogStartup -> succeeds ph = false ->
   exists tr0, trace (fst r) = tr0 ++ [ph] /\ snd r = Done (Err (PhaseFailed ph))) /\
  (snd r = Done (Ok tt) ->
   forall ph, In ph (trace (fst r)) -> ph <> LogStartup -> succeeds ph = true).
Proof.
  intros r.
  pose proof (run_sound_run read_to_string get_params succeeds args
                {| trace := []; log_running := lr |} (List.Forall_nil _)) as Hs.
  fold r in Hs. destruct r as [st o]. simpl in *.
  assert (Hall : Forall (phase_ok succeeds) (trace st) ->
                 forall ph, In ph (trace st) -> ph <> LogStartup -> succeeds ph = true).
  { intros HF ph Hin Hne. rewrite List.Forall_forall in HF.
    destruct (HF ph Hin) as [->|?]; [congruence|assumption]. }
  destruct o as [[u|e]|]; simpl in Hs.
  - split; [|intros _; exact (Hall Hs)].
    intros ph Hin Hne Hf. rewrite (Hall Hs ph Hin Hne) in Hf. discriminate.
  - split; [|discriminate].
    destruct Hs as [Hs|(tr0 & ph0 & Htr & H0 & Hf0 & Hne0 & ->)].
    + intros ph Hin Hne Hf. rewrite (Hall Hs ph Hin Hne) in Hf. discriminate.
    + intros ph Hin Hne Hf. rewrite Htr in Hin. apply in_app_or in Hin as [Hin|[<-|[]]].
      * rewrite List.Forall_forall in H0. destruct (H0 ph Hin) as [->|?]; congruence.
      * exists tr0. split; [exact Htr|reflexivity].
  - split; [|discriminate].
    intros ph Hin Hne Hf. rewrite (Hall Hs ph Hin Hne) in Hf. discriminate.
Qed.

(** [populate_config_vars] reports the first problem it meets, in this
    order: an unreadable TOML, a missing [database] table, a missing [files]
    table, then data_folder_path, src_file_name, db_user and db_password.
    The file-parameter messages carry the text the source passes as [sec2]
    (["a value for ..."]), the DB-parameter messages the intended one. *)
Theorem populate_config_vars_first_error from_str cell cs :
  let r := fst (populate_config_vars from_str cell cs) in
  (from_str cs = None ->
   r = Err (CsErr "CRITICAL ERROR - Unable to open config file")) /\
  forall tc, from_str cs = Some tc ->
  (Toml.database tc = None ->
   r = Err (CsErr "CRITICAL ERROR - Unable to read DB parameters from config file")) /\
  (Toml.database tc <> None -> Toml.files tc = None ->
   r = Err (CsErr "CRITICAL ERROR - Unable to read file parameters from config file")) /\
  (Toml.database tc <> None -> Toml.files tc <> None ->
   (param_missing (toml_file_par Toml.data_folder_path tc) ->
    r = Err (CsErr "CRITICAL ERROR - Unable to a value for data_folder_path")) /\
   (~ param_missing (toml_file_par Toml.data_folder_path tc) ->
    param_missing (toml_file_par Toml.src_file_name tc) ->
    r = Err (CsErr "CRITICAL ERROR - Unable to a value for src_file_name")) /\
   (~ param_missing (toml_file_par Toml.data_folder_path tc) ->
    ~ param_missing (toml_file_par Toml.src_file_name tc) ->
    param_missing (toml_db_par Toml.db_user tc) ->
    r = Err (CsErr "CRITICAL ERROR - Unable to read user name from config file")) /\
   (~ param_missing (toml_file_par Toml.data_folder_path tc) ->
    ~ param_missing (toml_file_par Toml.src_file_name tc) ->
    ~ param_missing (toml_db_par Toml.db_user tc) ->
    param_missing (toml_db_par Toml.db_password tc) ->
    r = Err (CsErr "CRITICAL ERROR - Unable to read user password from config file"))).
Proof.
  intros r. subst r. unfold populate_config_vars. split.
  { intros ->. reflexivity. }
  intros tc ->. unfold toml_file_par, toml_db_par.
  destruct (Toml.database tc) as [td|]; [|split; [reflexivity|split; intros; congruence]].
  split; [discriminate|].
  destruct (Toml.files tc) as [tf|];
    [|split; [reflexivity|intros _ H; exfalso; apply H; reflexivity]].
  split; [intros _ H; discriminate|]. intros _ _.
  unfold verify_file_parameters, verify_db_parameters.
  split; [|split; [|split]].
  - intros H. rewrite (check_critical_pathbuf_missing _ _ _ H). reflexivity.
  - intros H1 H2.
    destruct (check_critical_pathbuf_present _ "read data folder path from config file"
                "a value for data_folder_path" H1) as (d & _ & ->).
    rewrite (check_critical_pathbuf_missing _ _ _ H2). reflexivity.
  - intros H1 H2 H3.
    destruct (check_critical_pathbuf_present _ "read data folder path from config file"
                "a value for data_folder_path" H1) as (d & _ & ->).
    destruct (check_critical_pathbuf_present _ "read source file from config file"
                "a value for src_file_name" H2) as (sf & _ & ->).
    simpl. rewrite (check_critical_db_par_missing _ _ _ H3). reflexivity.
  - intros H1 H2 H3 H4.
    destruct (check_critical_pathbuf_present _ "read data folder path from config file"
                "a value for data_folder_path" H1) as (d & _ & ->).
    destruct (check_critical_pathbuf_present _ "read source file from config file"
                "a value for src_file_name" H2) as (sf & _ & ->).
    simpl.
    destruct (check_critical_db_par_present _ "a value for db_user"
                "read user name from config file" H3) as (u & _ & ->).
    rewrite (check_critical_db_par_missing _ _ _ H4). reflexivity.
Qed.

(** A failed [populate_config_vars] leaves the [DB_PARS] cell as it was,
    whether or not it was already set. *)
Theorem populate_config_vars_err_keeps_cell from_str cell cs e :
  fst (populate_config_vars from_str cell cs) = Err e ->
  snd (populate_config_vars from_str cell cs) = cell.
Proof.
  unfold populate_config_vars.
  destruct (from_str cs) as [tc|]; [|reflexivity].
  destruct (Toml.database tc) as [td|]; [|reflexivity].
  destruct (Toml.files tc) as [tf|]; [|reflexivity].
  destruct (verify_file_parameters tf); [|reflexivity].
  destruct (verify_db_parameters td); [discriminate|reflexivity].
Qed.

Lemma populate_config_vars_set_cell from_str p cs :
  snd (populate_config_vars from_str (Some p) cs) = Some p.
Proof.
  unfold populate_config_vars.
  destruct (from_str cs) as [tc|]; [|reflexivity].
  destruct (Toml.database tc); [|reflexivity]. destruct (Toml.files tc); [|reflexivity].
  destruct (verify_file_parameters _); [|reflexivity].
  destruct (verify_db_parameters _); reflexivity.
Qed.

(** [fetch_db_name] fails until [DB_PARS] is set; after the first successful
    [populate_config_vars] it returns the db_name that call validated, and a
    later call cannot change it. *)
Theorem fetch_db_name_after_populate from_str cs cs' c :
  fst (populate_config_vars from_str None cs) = Ok c ->
  (exists msg, fetch_db_name None = Err (CsErr msg)) /\
  fetch_db_name (snd (populate_config_vars from_str None cs)) = Ok (db_name (db_pars c)) /\
  fetch_db_name (snd (populate_config_vars from_str
                        (snd (populate_config_vars from_str None cs)) cs'))
  = Ok (db_name (db_pars c)).
Proof.
  intros H.
  destruct (populate_config_vars_ok_inv _ _ _ _ H) as (? & ? & ? & ? & ? & ? & ? & ? & Hs).
  rewrite Hs. simpl. split; [eexists; reflexivity|]. split; [reflexivity|].
  rewrite populate_config_vars_set_cell. reflexivity.
Qed.

(** A supplied parameter reaches the [Config] exactly as written: the value
    is tested trimmed but returned untrimmed; a supplied db_port is read as
    a [usize] with its text taken as is. *)
Theorem populate_config_vars_keeps_supplied_values from_str cell cs tc c :
  from_str cs = Some tc ->
  fst (populate_config_vars from_str cell cs) = Ok c ->
  toml_file_par Toml.data_folder_path tc = Some (data_folder_path (files c)) /\
  toml_file_par Toml.src_file_name tc = Some (src_file_name (files c)) /\
  toml_db_par Toml.db_user tc = Some (db_user (db_pars c)) /\
  toml_db_par Toml.db_password tc = Some (db_password (db_pars c)) /\
  (forall s, toml_file_par Toml.log_folder_path tc = Some s -> ~ param_missing (Some s) ->
   log_folder_path (files c) = s) /\
  (forall s, toml_file_par Toml.output_folder_path tc = Some s -> ~ param_missing (Some s) ->
   output_folder_path (files c) = s) /\
  (forall s, toml_db_par Toml.db_host tc = Some s -> ~ param_missing (Some s) ->
   db_host (db_pars c) = s) /\
  (forall s, toml_db_par Toml.db_name tc = Some s -> ~ param_missing (Some s) ->
   db_name (db_pars c) = s) /\
  (forall s n, toml_db_par Toml.db_port tc = Some s -> ~ param_missing (Some s) ->
   parse_usize s = Some n -> db_port (db_pars c) = n).
Proof.
  intros Hparse Hok.
  apply populate_config_vars_ok_inv in Hok as (tc' & tf & td & Hp & Hf & Hd & Vf & Vd & _).
  rewrite Hparse in Hp. injection Hp as <-.
  unfold toml_file_par, toml_db_par. rewrite Hf, Hd.
  rename Vd into Vd'.
  apply verify_file_parameters_ok in Vf as (Hdf & _ & Hsf & _ & Hlog & Hout).
  unfold verify_db_parameters in Vd'.
  destruct (check_critical_db_par (Toml.db_user td) _ _) as [u|] eqn:E1; [|discriminate].
  destruct (check_critical_db_par (Toml.db_password td) _ _) as [pw|] eqn:E2; [|discriminate].
  injection Vd' as <-. simpl.
  apply check_critical_db_par_ok in E1 as [Hu _].
  apply check_critical_db_par_ok in E2 as [Hpw _].
  split; [exact Hdf|]. split; [exact Hsf|]. split; [exact Hu|]. split; [exact Hpw|].
  split; [intros s Hs Hm; rewrite Hlog, Hs; apply check_db_par_present, Hm|].
  split; [intros s Hs Hm; rewrite Hout, Hs; apply check_db_par_present, Hm|].
  split; [intros s Hs Hm; rewrite Hs; apply check_db_par_present, Hm|].
  split; [intros s Hs Hm; rewrite Hs; apply check_db_par_present, Hm|].
  intros s n Hs Hm Hn. rewrite Hs, (check_db_par_present _ _ _ Hm), Hn. reflexivity.
Qed.

Lemma parse_digits_bound acc ds n :
  acc < 2 ^ 64 -> parse_digits acc ds = Some n -> n < 2 ^ 64.
Proof.
  revert acc. induction ds as [|d ds IH]; simpl; intros acc Ha H.
  - injection H as <-. exact Ha.
  - destruct (_ && _); [|discriminate].
    destruct (acc * 10 + (d - 48) <? 2 ^ 64) eqn:E; [|discriminate].
    apply N.ltb_lt in E. exact (IH _ E H).
Qed.

Lemma populate_config_vars_port_fits_usize from_str cell cs c :
  fst (populate_config_vars from_str cell cs) = Ok c ->
  db_port (db_pars c) < 2 ^ 64.
Proof.
  intros H.
  apply populate_config_vars_ok_inv in H as (? & ? & ? & ? & ? & ? & ? & Vd & _).
  apply verify_db_parameters_ok in Vd as (_ & _ & _ & Hport & _).
  rewrite Hport. generalize (check_db_par (Toml.db_port x1) "DB port" (lit "5432")) as s. intros s.
  destruct (parse_usize s) as [n|] eqn:E; [|reflexivity].
  unfold parse_usize in E.
  destruct s as [|c0 [|c1 rest]]; [discriminate| |].
  - destruct (_ || _); [discriminate|]. exact (parse_digits_bound 0 _ _ eq_refl E).
  - destruct (c0 =? 43); exact (parse_digits_bound 0 _ _ eq_refl E).
Qed.

Ltac run_cases :=
  unfold bind, act, emit, set_log_running, ret, enter; simpl;
  repeat (simpl; match goal with
                 | |- context [match ?s ?p with true => _ | false => _ end] =>
                     destruct (s p)
                 | |- context [match ?lr with Some _ => _ | None => _ end] =>
                     is_var lr; destruct lr
                 end);
  simpl.

(** When the configuration file cannot be read, or [get_params] rejects the
    arguments or the configuration, [run] returns that error before any
    phase: no log, no database connection, and [LOG_RUNNING] untouched. *)
Theorem run_setup_failure_does_nothing read_to_string get_params succeeds args st :
  (read_to_string (lit "./app_config.toml") = None ->
   run read_to_string get_params succeeds args st
   = (st, Done (Err (IoReadErrorWithPath (lit "./app_config.toml"))))) /\
  (forall config_string e,
   read_to_string (lit "./app_config.toml") = Some config_string ->
   get_params args config_string = Err e ->
   run read_to_string get_params succeeds args st = (st, Done (Err e))).
Proof.
  split.
  - intros H. unfold run. rewrite H. reflexivity.
  - intros cs e H1 H2. unfold run. rewrite H1, H2. reflexivity.
Qed.

(** With [-i] (initialise), [run] never imports, summarises or exports,
    whatever the other flags and whichever phase fails. *)
Theorem run_initialise_only_schema read_to_string get_params succeeds args lr
    config_string params :
  read_to_string (lit "./app_config.toml") = Some config_string ->
  get_params args config_string = Ok params ->
  initialise (Setup.flags params) = true ->
  let tr := trace (fst (run read_to_string get_params succeeds args
                          {| trace := []; log_running := lr |})) in
  ~ In ImportData tr /\ ~ In SummariseImport tr /\ ~ In ExportData tr.
Proof.
  intros Hr Hg Hi tr. subst tr. unfold run. rewrite Hr, Hg.
  destruct (Setup.flags params) as [im ex ini trn]; simpl in Hi; subst ini. simpl.
  destruct trn; run_cases; intuition discriminate.
Qed.

(** A test run ([-z]) never sets up logging, never writes the start-up
    parameters and never touches [LOG_RUNNING], so it cannot panic on it. *)
Theorem run_test_run_no_logging read_to_string get_params succeeds args lr
    config_string params :
  read_to_string (lit "./app_config.toml") = Some config_string ->
  get_params args config_string = Ok params ->
  test_run (Setup.flags params) = true ->
  let r := run read_to_string get_params succeeds args
             {| trace := []; log_running := lr |} in
  ~ In SetupLog (trace (fst r)) /\ ~ In LogStartup (trace (fst r)) /\
  log_running (fst r) = lr /\ snd r <> Panicked.
Proof.
  intros Hr Hg Ht r. subst r. unfold run. rewrite Hr, Hg.
  destruct (Setup.flags params) as [im ex ini trn]; simpl in Ht; subst trn. simpl.
  destruct ini, im, ex; run_cases; intuition discriminate.
Qed.

(** A run that returns [Ok] connected to the database and performed exactly
    the phases its flags select: schema creation iff [-i]; otherwise import
    iff [-r] and export iff [-x]; log set-up iff not a test run. *)
Theorem run_ok_performs_selected_phases read_to_string get_params succeeds args lr
    config_string params :
  read_to_string (lit "./app_config.toml") = Some config_string ->
  get_params args config_string = Ok params ->
  let r := run read_to_string get_params succeeds args
             {| trace := []; log_running := lr |} in
  let f := Setup.flags params in
  snd r = Done (Ok tt) ->
  In GetPool (trace (fst r)) /\
  (In CreateTables (trace (fst r)) <-> initialise f = true) /\
  (In ImportData (trace (fst r)) <-> initialise f = false /\ import_data f = true) /\
  (In ExportData (trace (fst r)) <-> initialise f = false /\ export_data f = true) /\
  (In SetupLog (trace (fst r)) <-> test_run f = false).
Proof.
  intros Hr Hg r f. subst r f. unfold run. rewrite Hr, Hg.
  destruct (Setup.flags params) as [im ex ini trn]. simpl.
  destruct trn, ini, im, ex; run_cases; intros H; try discriminate; intuition discriminate.
Qed.

Lemma dec_acc_lu acc u :
  dec_acc acc u
  = DecimalPos.Unsigned.of_lu (Decimal.rev u) + acc * 10 ^ DecimalPos.Unsigned.usize u.
Proof.
  revert acc.
  induction u; intros acc; simpl dec_acc; simpl DecimalPos.Unsigned.usize;
    [simpl; lia|..];
    rewrite IHu; unfold Decimal.rev at 2; simpl Decimal.revapp;
    (match goal with
     | |- context [Decimal.revapp u (?d Decimal.Nil)] =>
         rewrite (DecimalPos.Unsigned.of_lu_revapp u (d Decimal.Nil))
     end);
    simpl DecimalPos.Unsigned.of_lu; rewrite N.pow_succ_r'; nia.
Qed.

Lemma dec_acc_of_uint u : dec_acc 0 u = N.of_uint u.
Proof.
  rewrite dec_acc_lu. unfold N.of_uint. rewrite DecimalPos.Unsigned.of_uint_alt. lia.
Qed.

Lemma dec_acc_ge acc u : acc <= dec_acc acc u.
Proof.
  rewrite dec_acc_lu.
  assert (1 <= 10 ^ DecimalPos.Unsigned.usize u)
    by (pose proof (N.pow_nonzero 10 (DecimalPos.Unsigned.usize u)); lia).
  nia.
Qed.

Lemma parse_digits_uint_chars acc u :
  dec_acc acc u < 2 ^ 64 -> parse_digits acc (uint_chars u) = Some (dec_acc acc u).
Proof.
  revert acc.
  induction u; intros acc H; simpl in *; [reflexivity|..];
    (match type of H with
     | dec_acc ?v u < _ =>
         pose proof (dec_acc_ge v u); rewrite (proj2 (N.ltb_lt _ _)) by lia;
         apply IHu; exact H
     end).
Qed.

Lemma show_usize_parse n : n < 2 ^ 64 -> parse_usize (show_usize n) = Some n.
Proof.
  intros Hn. unfold show_usize.
  assert (Hp : parse_digits 0 (uint_chars (N.to_uint n)) = Some n).
  { rewrite parse_digits_uint_chars; rewrite dec_acc_of_uint, DecimalN.Unsigned.of_to;
      [reflexivity|exact Hn]. }
  assert (Hnn : N.to_uint n <> Decimal.Nil).
  { destruct n as [|p]; [discriminate|apply DecimalPos.Unsigned.to_uint_nonnil]. }
  unfold parse_usize. rewrite <- Hp.
  destruct (N.to_uint n) as [|u|u|u|u|u|u|u|u|u|u]; [congruence|..];
    simpl; destruct (uint_chars u); reflexivity.
Qed.

(** The port [fetch_db_conn_string] writes for a validated configuration
    is a decimal numeral that [usize::from_str], the parser
    [verify_db_parameters] applies to db_port, reads back as the same port. *)
Theorem populate_config_vars_port_round_trip from_str cs c name :
  fst (populate_config_vars from_str None cs) = Ok c ->
  (exists pre post,
     fetch_db_conn_string (snd (populate_config_vars from_str None cs)) name
     = Ok (pre ++ show_usize (db_port (db_pars c)) ++ post)) /\
  parse_usize (show_usize (db_port (db_pars c))) = Some (db_port (db_pars c)).
Proof.
  intros H. split.
  - destruct (populate_config_vars_ok_inv _ _ _ _ H) as (? & ? & ? & ? & ? & ? & ? & ? & Hs).
    rewrite Hs. simpl.
    exists (lit "postgres://" ++ db_user (db_pars c) ++ lit ":" ++ db_password (db_pars c)
            ++ lit "@" ++ db_host (db_pars c) ++ lit ":"), (lit "/" ++ name).
    rewrite <- !app_assoc. reflexivity.
  - apply show_usize_parse. exact (populate_config_vars_port_fits_usize _ _ _ _ H).
Qed.

(* ------------------------------------------------------------------ *)
(** * Witnesses of the further properties *)

Lemma fetch_valid_arguments_at_most_one_mode_witness :
  fetch_valid_arguments clap_parse_args [lit "alt_names"; lit "-i"; lit "-r"; lit "-x"]
  = Ok {| source_file := []; flags := Setup.flags init_params |} /\
  (Nat.b2n true + Nat.b2n false + Nat.b2n false <= 1)%nat.
Proof.
  split; [reflexivity|].
  exact (fetch_valid_arguments_at_most_one_mode clap_parse_args
           [lit "alt_names"; lit "-i"; lit "-r"; lit "-x"]
           {| source_file := []; flags := Setup.flags init_params |} ltac:(reflexivity)).
Defined.

Lemma populate_config_vars_err_keeps_cell_witness :
  snd (populate_config_vars (fun _ => Some (set_param KDataFolder None sample_toml))
         (Some sample_db_pars) (lit "b")) = Some sample_db_pars.
Proof.
  apply (populate_config_vars_err_keeps_cell _ _ _
           (CsErr "CRITICAL ERROR - Unable to a value for data_folder_path")).
  vm_compute. reflexivity.
Defined.

Lemma fetch_db_name_after_populate_witness :
  match fst (populate_config_vars sample_from_str None (lit "b")) with
  | Ok c => fetch_db_name (snd (populate_config_vars sample_from_str None (lit "b")))
            = Ok (db_name (db_pars c)) /\ db_name (db_pars c) = lit "geo"
  | Err _ => False
  end.
Proof.
  destruct (fst (populate_config_vars sample_from_str None (lit "b"))) as [c|e] eqn:E.
  - destruct (fetch_db_name_after_populate sample_from_str (lit "b") (lit "a") c E)
      as (_ & H & _).
    split; [exact H|].
    vm_compute in E. injection E as <-. reflexivity.
  - vm_compute in E. discriminate.
Defined.

Lemma populate_config_vars_keeps_supplied_values_witness :
  match fst (populate_config_vars padded_from_str None (lit "b")) with
  | Ok c => db_user (db_pars c) = lit " user_name " /\ db_port (db_pars c) = 5433 /\
            log_folder_path (files c) = lit " logs"
  | Err _ => False
  end.
Proof.
  destruct (fst (populate_config_vars padded_from_str None (lit "b"))) as [c|e] eqn:E.
  - destruct (populate_config_vars_keeps_supplied_values padded_from_str None (lit "b")
                padded_toml c ltac:(reflexivity) E)
      as (_ & _ & Hu & _ & Hlog & _ & _ & _ & Hport).
    split; [unfold toml_db_par in Hu; simpl in Hu; injection Hu as <-; reflexivity|].
    split; [apply (Hport (lit "+5433")); [reflexivity|not_missing|reflexivity]|].
    apply Hlog; [reflexivity|not_missing].
  - vm_compute in E. discriminate.
Defined.

Lemma populate_config_vars_port_round_trip_witness :
  match fst (populate_config_vars padded_from_str None (lit "b")) with
  | Ok c => parse_usize (show_usize (db_port (db_pars c))) = Some (db_port (db_pars c))
  | Err _ => False
  end.
Proof.
  destruct (fst (populate_config_vars padded_from_str None (lit "b"))) as [c|e] eqn:E.
  - exact (proj2 (populate_config_vars_port_round_trip padded_from_str (lit "b") c
                    (lit "geo2") E)).
  - vm_compute in E. discriminate.
Defined.

Lemma run_initialise_only_schema_witness :
  let tr := trace (fst (run sample_read_to_string sample_get_params all_succeed
                          [lit "alt_names"; lit "-i"; lit "-r"; lit "-x"]
                          {| trace := []; log_running := None |})) in
  ~ In ImportData tr /\ ~ In SummariseImport tr /\ ~ In ExportData tr.
Proof.
  exact (run_initialise_only_schema sample_read_to_string sample_get_params all_succeed
           [lit "alt_names"; lit "-i"; lit "-r"; lit "-x"] None (lit "[files]") init_params
           ltac:(reflexivity) ltac:(reflexivity) ltac:(reflexivity)).
Defined.

Lemma run_test_run_no_logging_witness :
  let r := run sample_read_to_string sample_get_params all_succeed
             [lit "alt_names"; lit "-r"; lit "-z"] {| trace := []; log_running := Some true |} in
  ~ In SetupLog (trace (fst r)) /\ ~ In LogStartup (trace (fst r)) /\
  log_running (fst r) = Some true /\ snd r <> Panicked.
Proof.
  exact (run_test_run_no_logging sample_read_to_string sample_get_params all_succeed
           [lit "alt_names"; lit "-r"; lit "-z"] (Some true) (lit "[files]")
           {| Setup.data_folder := lit "data"; Setup.log_folder := lit "data";
              Setup.output_folder := lit "data"; Setup.source_file_name := [];
              Setup.flags := {| import_data := true; export_data := false;
                                initialise := false; test_run := true |} |}
           ltac:(reflexivity) ltac:(reflexivity) ltac:(reflexivity)).
Defined.

Lemma run_ok_performs_selected_phases_witness :
  let r := run sample_read_to_string sample_get_params all_succeed
             [lit "alt_names"; lit "-x"] {| trace := []; log_running := None |} in
  In GetPool (trace (fst r)) /\
  (In CreateTables (trace (fst r)) <-> false = true) /\
  (In ImportData (trace (fst r)) <-> false = false /\ false = true) /\
  (In ExportData (trace (fst r)) <-> false = false /\ true = true) /\
  (In SetupLog (trace (fst r)) <-> false = false).
Proof.
  exact (run_ok_performs_selected_phases sample_read_to_string sample_get_params all_succeed
           [lit "alt_names"; lit "-x"] None (lit "[files]")
           {| Setup.data_folder := lit "data"; Setup.log_folder := lit "data";
              Setup.output_folder := lit "data"; Setup.source_file_name := [];
              Setup.flags := {| import_data := false; export_data := true;
                                initialise := false; test_run := false |} |}
           ltac:(reflexivity) ltac:(reflexivity) ltac:(reflexivity)).
Defined.
